(** * tools/generate_ruleset.py: the forbidden-extension ruleset generator

    A shallow embedding of the script and of the parts of the Python
    runtime and of PyYAML it runs through:

    - Python [str] values are lists of Unicode code points;
    - text-mode reading ([open], universal newlines, [readlines]);
    - [str.strip], [str.startswith], the filter loop that fills [patterns];
    - the construction of the [ruleset] dictionary, with object identities
      for the mutable containers (the list [patterns] is referenced twice);
    - [yaml.dump(ruleset, sort_keys=False)]: PyYAML's representer,
      serializer, resolver and emitter, down to the text;
    - the process in its environment ([import yaml], the files, the codec
      of text mode, standard output) and its outcome: exit status,
      standard output, and what is left on standard error. *)

From Stdlib Require Import List NArith Bool Lia String Ascii DecimalString.
From Stdlib Require Strings.Byte.
From Stdlib Require Import PeanoNat.
Import ListNotations.

Local Open Scope N_scope.
Local Open Scope list_scope.

(** ** Python strings *)

(** A character is a Unicode code point, a [str] a sequence of them. *)
Definition char := N.
Definition str := list char.

(** Source literals are ASCII: [u "push"] is the [str] of the literal. *)
Definition u (s : string) : str := map N_of_ascii (list_ascii_of_string s).
Arguments u s%_string.

Definition LF : char := 10.
Definition CR : char := 13.
Definition SPACE : char := 32.
Definition HASH : char := 35.

Definition str_eq_dec : forall a b : str, {a = b} + {a <> b} :=
  list_eq_dec N.eq_dec.

Fixpoint str_eqb (a b : str) : bool :=
  match a, b with
  | [], [] => true
  | x :: a', y :: b' => (x =? y) && str_eqb a' b'
  | _, _ => false
  end.

(** [str.isspace] on one character, as [str.strip()] uses it: the ASCII
    table of CPython ([_Py_ascii_whitespace]) below 128 and
    [_PyUnicode_IsWhitespace] above. *)
Definition isspace (c : char) : bool :=
  ((9 <=? c) && (c <=? 13)) || ((28 <=? c) && (c <=? 32))
  || (c =? 133) || (c =? 160) || (c =? 5760)
  || ((8192 <=? c) && (c <=? 8202))
  || (c =? 8232) || (c =? 8233) || (c =? 8239) || (c =? 8287) || (c =? 12288).

(** [s.lstrip()], [s.rstrip()], [s.strip()] without argument. *)
Fixpoint lstrip (s : str) : str :=
  match s with
  | [] => []
  | c :: r => if isspace c then lstrip r else s
  end.

Definition rstrip (s : str) : str := rev (lstrip (rev s)).

Definition strip (s : str) : str := rstrip (lstrip s).

(** [s.startswith(prefix)]. *)
Fixpoint startswith (s prefix : str) {struct prefix} : bool :=
  match prefix, s with
  | [], _ => true
  | _ :: _, [] => false
  | p :: prefix', c :: s' => (c =? p) && startswith s' prefix'
  end.

(** Truth value of a [str]: the empty string is false. *)
Definition truthy (s : str) : bool :=
  match s with [] => false | _ :: _ => true end.

(** ** Reading the file as text *)

(** Universal-newline translation of text mode ([newline=None]): on input
    both CR LF and a lone CR become LF. *)
Fixpoint universal_newlines (s : str) : str :=
  match s with
  | [] => []
  | c :: r =>
      if c =? CR then
        LF :: match r with
              | [] => []
              | d :: r' =>
                  if d =? LF then universal_newlines r'
                  else universal_newlines r
              end
      else c :: universal_newlines r
  end.

(** [f.readlines()] on translated text: the text cut after every LF; each
    line keeps its LF, a last line without LF is kept when not empty. *)
Fixpoint split_keepends (s : str) : list str :=
  match s with
  | [] => []
  | c :: r =>
      if c =? LF then [c] :: split_keepends r
      else match split_keepends r with
           | [] => [[c]]
           | l :: ls => (c :: l) :: ls
           end
  end.

Definition lines_of_text (decoded : str) : list str :=
  split_keepends (universal_newlines decoded).

(** ** The filter loop (lines 9-20) *)

(** [for line in lines: ...] with the list [patterns] threaded through;
    [continue] leaves it unchanged, [patterns.append(x)] adds [x] at the
    end.  The f-string [f"*.{line}"] is ["*." + line]. *)
Fixpoint for_lines (lines : list str) (patterns : list str) : list str :=
  match lines with
  | [] => patterns
  | line :: rest =>
      let line := strip line in
      if negb (truthy line) || startswith line (u "#")
      then for_lines rest patterns
      else for_lines rest (patterns ++ [u "*." ++ line])
  end.

(** The value of [patterns] after the loop, from [patterns = []]. *)
Definition patterns_of (lines : list str) : list str := for_lines lines [].

(** ** Python objects *)

Local Set Warnings "-register-all".

(** Lists and dictionaries are mutable objects with an identity; the
    script puts the one list [patterns] at two places of [ruleset], and
    PyYAML tells shared objects by [id(data)].  Strings are immutable and
    PyYAML ignores their identity.  A dictionary keeps its items in
    insertion order; every key of this script is a [str]. *)
Definition objid := nat.

Inductive pyobj : Type :=
| PyStr (s : str)
| PyList (id : objid) (items : list pyobj)
| PyDict (id : objid) (items : list (str * pyobj)).
Arguments PyList id%_nat items.
Arguments PyDict id%_nat items.

(** [d[k] = v] on the items of a dictionary: an existing key keeps its
    position and takes the new value, a new key goes last. *)
Fixpoint dict_setitem (items : list (str * pyobj)) (k : str) (v : pyobj)
  : list (str * pyobj) :=
  match items with
  | [] => [(k, v)]
  | (k', v') :: rest =>
      if str_eqb k' k then (k', v) :: rest
      else (k', v') :: dict_setitem rest k v
  end.

(** A dictionary display [{k1: v1, ..., kn: vn}] inserts its items from
    left to right. *)
Definition dict_display (kvs : list (str * pyobj)) : list (str * pyobj) :=
  fold_left (fun items kv => dict_setitem items (fst kv) (snd kv)) kvs [].

(** Object creation: a state monad over the next free identity. *)
Definition alloc (A : Type) : Type := objid -> A * objid.

Definition ret {A : Type} (a : A) : alloc A := fun n => (a, n).

Definition bind {A B : Type} (m : alloc A) (k : A -> alloc B) : alloc B :=
  fun n => let (a, n') := m n in k a n'.

Notation "x <- m ;; k" := (bind m (fun x => k))
  (at level 61, m at next level, right associativity).

Definition new_id : alloc objid := fun n => (n, S n).

Definition new_list (items : list pyobj) : alloc pyobj :=
  id <- new_id ;; ret (PyList id items).

Definition new_dict (kvs : list (str * pyobj)) : alloc pyobj :=
  id <- new_id ;; ret (PyDict id (dict_display kvs)).

(** Subscription [o[k]] on a dictionary and [o[i]] on a list; [None] stands
    for the [KeyError], [IndexError] or [TypeError] of Python. *)
Fixpoint assoc_str (items : list (str * pyobj)) (k : str) : option pyobj :=
  match items with
  | [] => None
  | (k', v) :: rest => if str_eqb k' k then Some v else assoc_str rest k
  end.

Definition getitem (o : pyobj) (k : str) : option pyobj :=
  match o with
  | PyDict _ items => assoc_str items k
  | _ => None
  end.

Definition getindex (o : pyobj) (i : nat) : option pyobj :=
  match o with
  | PyList _ items => nth_error items i
  | _ => None
  end.

Definition and_then {A B : Type} (o : option A) (f : A -> option B)
  : option B :=
  match o with Some a => f a | None => None end.

(** ** Building the ruleset (lines 9 and 22-37) *)

(** The document, given the list object [patterns].  Inner displays are
    evaluated before the display that contains them. *)
Definition build_ruleset (patterns : pyobj) : alloc pyobj :=
  file_paths <- new_dict [(u "included", patterns)] ;;
  star <- new_list [PyStr (u "*")] ;;
  branches <- new_dict [(u "includes", star)] ;;
  conditions <- new_dict [(u "file_paths", file_paths);
                          (u "branches", branches)] ;;
  parameters <- new_dict [(u "restricted_file_patterns", patterns)] ;;
  rule <- new_dict [(u "type", PyStr (u "file_path_restriction"));
                    (u "parameters", parameters)] ;;
  rules <- new_list [rule] ;;
  new_dict [(u "name", PyStr (u "Block Forbidden File Types"));
            (u "target", PyStr (u "push"));
            (u "enforcement", PyStr (u "active"));
            (u "conditions", conditions);
            (u "rules", rules)].

(** Lines 9-37 on the lines read from the file.  The list object is
    created empty at line 9 and keeps its identity while [append] fills
    it; when [ruleset] is built it holds the patterns of the loop. *)
Definition ruleset_program (lines : list str) : alloc pyobj :=
  patterns_id <- new_id ;;
  let patterns := for_lines lines [] in
  build_ruleset (PyList patterns_id (map PyStr patterns)).

(** The value of [ruleset] at line 39. *)
Definition ruleset_of (lines : list str) : pyobj :=
  fst (ruleset_program lines 0%nat).

(** The two places of the document that carry the patterns. *)
Definition included (doc : pyobj) : option pyobj :=
  and_then (and_then (getitem doc (u "conditions"))
                     (fun c => getitem c (u "file_paths")))
           (fun f => getitem f (u "included")).

Definition restricted_file_patterns (doc : pyobj) : option pyobj :=
  and_then (and_then (and_then (getitem doc (u "rules"))
                               (fun r => getindex r 0))
                     (fun r0 => getitem r0 (u "parameters")))
           (fun p => getitem p (u "restricted_file_patterns")).

Definition branches_includes (doc : pyobj) : option pyobj :=
  and_then (and_then (getitem doc (u "conditions"))
                     (fun c => getitem c (u "branches")))
           (fun b => getitem b (u "includes")).

(** The strings held by a list object. *)
Definition str_items (o : pyobj) : option (list str) :=
  match o with
  | PyList _ items =>
      fold_right (fun x acc =>
                    match x, acc with
                    | PyStr s, Some l => Some (s :: l)
                    | _, _ => None
                    end) (Some []) items
  | _ => None
  end.

(** ** yaml.dump: representer and serializer of PyYAML *)

(** The representation graph.  A collection node is made once per object
    and found again through [represented_objects], so the identity of the
    object is the identity of its node; a scalar node is made anew at
    every occurrence ([ignore_aliases] holds for [str]). *)
Inductive node : Type :=
| ScalarNode (tag : str) (value : str)
| SequenceNode (key : objid) (tag : str) (value : list node)
               (flow_style : bool)
| MappingNode (key : objid) (tag : str) (value : list (node * node))
              (flow_style : bool).

Definition tag_str : str := u "tag:yaml.org,2002:str".
Definition tag_seq : str := u "tag:yaml.org,2002:seq".
Definition tag_map : str := u "tag:yaml.org,2002:map".

(** [default_flow_style] of [yaml.dump] is [False]. *)
Definition default_flow_style : bool := false.

Fixpoint lookup {A : Type} (k : objid) (m : list (objid * A)) : option A :=
  match m with
  | [] => None
  | (k', a) :: rest => if Nat.eqb k' k then Some a else lookup k rest
  end.

(** Order of [str] values: code point by code point, a proper prefix
    first. *)
Fixpoint str_leb (a b : str) : bool :=
  match a, b with
  | [], _ => true
  | _ :: _, [] => false
  | x :: a', y :: b' => (x <? y) || ((x =? y) && str_leb a' b')
  end.

(** [sorted(mapping)] on the items of a dictionary: its keys differ, so the
    pairs are ordered by their keys. *)
Fixpoint insert_by_key {A : Type} (kv : str * A) (l : list (str * A))
  : list (str * A) :=
  match l with
  | [] => [kv]
  | kv' :: rest =>
      if str_leb (fst kv) (fst kv') then kv :: l
      else kv' :: insert_by_key kv rest
  end.

Definition sorted_by_key {A : Type} (l : list (str * A)) : list (str * A) :=
  fold_right insert_by_key [] l.

(** The representer's state: [represented_objects]. *)
Definition represented := list (objid * node).

(** A step of the representer: from the state before to the node and the
    state after. *)
Definition rep_step := represented -> node * represented.

(** The loop of [represent_sequence] over the items. *)
Fixpoint represent_sequence_items (sequence : list rep_step)
         (ro : represented) : list node * represented :=
  match sequence with
  | [] => ([], ro)
  | rep_item :: rest =>
      let (node_item, ro1) := rep_item ro in
      let (value, ro2) := represent_sequence_items rest ro1 in
      (node_item :: value, ro2)
  end.

(** The loop of [represent_mapping] over the items in their final order;
    a key is a [str] and goes through [represent_str]. *)
Fixpoint represent_mapping_items (mapping : list (str * rep_step))
         (ro : represented) : list (node * node) * represented :=
  match mapping with
  | [] => ([], ro)
  | (item_key, rep_value) :: rest =>
      let node_key := ScalarNode tag_str item_key in
      let (node_value, ro1) := rep_value ro in
      let (value, ro2) := represent_mapping_items rest ro1 in
      ((node_key, node_value) :: value, ro2)
  end.

(** [represent_data]: a [str] through [represent_str], a list through
    [represent_sequence], a dictionary through [represent_mapping], which
    sorts the items first when [sort_keys] is set.  An object seen before
    gives the node made then.  Each item is paired with its own call of
    [represent_data], which runs when the loop reaches it.  (PyYAML
    registers a collection node before it fills it; on data without
    cycles registering it afterwards finds the same nodes.) *)
Fixpoint represent_data (sort_keys : bool) (data : pyobj) {struct data}
  : rep_step :=
  match data with
  | PyStr s => fun ro => (ScalarNode tag_str s, ro)
  | PyList id items => fun ro =>
      match lookup id ro with
      | Some n => (n, ro)
      | None =>
          let sequence := map (represent_data sort_keys) items in
          let (value, ro') := represent_sequence_items sequence ro in
          let n := SequenceNode id tag_seq value default_flow_style in
          (n, (id, n) :: ro')
      end
  | PyDict id items => fun ro =>
      match lookup id ro with
      | Some n => (n, ro)
      | None =>
          let mapping :=
            map (fun kv : str * pyobj =>
                   let (k, v) := kv in (k, represent_data sort_keys v))
                items in
          let mapping := if sort_keys then sorted_by_key mapping
                         else mapping in
          let (value, ro') := represent_mapping_items mapping ro in
          let n := MappingNode id tag_map value default_flow_style in
          (n, (id, n) :: ro')
      end
  end.

(** Events of the serializer.  The [implicit] flags of PyYAML's events are
    left out: they are computed from [tag] and [value] by the resolver. *)
Inductive event : Type :=
| StreamStartEvent
| StreamEndEvent
| DocumentStartEvent
| DocumentEndEvent
| AliasEvent (anchor : option str)
| ScalarEvent (anchor : option str) (tag : str) (value : str)
| SequenceStartEvent (anchor : option str) (tag : str) (flow_style : bool)
| SequenceEndEvent
| MappingStartEvent (anchor : option str) (tag : str) (flow_style : bool)
| MappingEndEvent.

(** ['id%03d' % n]. *)
Definition decimal (n : nat) : str :=
  u (NilEmpty.string_of_uint (Nat.to_uint n)).

Definition generate_anchor (last_anchor_id : nat) : str :=
  let digits := decimal last_anchor_id in
  u "id" ++ repeat 48 (3 - List.length digits)%nat ++ digits.

(** [anchor_node]: the first visit of a node records it without anchor and
    goes into it, the second visit gives it the next anchor, later visits
    change nothing. *)
Record anchoring : Type := {
  anchors : list (objid * option str);
  last_anchor_id : nat
}.

Definition visit_anchor (key : objid) (st : anchoring)
           (descend : anchoring -> anchoring) : anchoring :=
  match lookup key (anchors st) with
  | Some None =>
      let n := S (last_anchor_id st) in
      {| anchors := (key, Some (generate_anchor n)) :: anchors st;
         last_anchor_id := n |}
  | Some (Some _) => st
  | None =>
      descend {| anchors := (key, None) :: anchors st;
                 last_anchor_id := last_anchor_id st |}
  end.

Fixpoint anchor_node (n : node) (st : anchoring) {struct n} : anchoring :=
  match n with
  | ScalarNode _ _ => st
  | SequenceNode key _ value _ =>
      visit_anchor key st
        (fold_left (fun st item => anchor_node item st) value)
  | MappingNode key _ value _ =>
      visit_anchor key st
        (fold_left (fun st (kv : node * node) =>
                      let (k, v) := kv in anchor_node v (anchor_node k st))
                   value)
  end.

(** [self.anchors[node]] once anchoring is done. *)
Definition anchor_of (st : anchoring) (key : objid) : option str :=
  match lookup key (anchors st) with
  | Some a => a
  | None => None
  end.

(** A step of the serializer: from [serialized_nodes] before to the events
    emitted and [serialized_nodes] after. *)
Definition ser_step := list objid -> list event * list objid.

Fixpoint serialize_all (steps : list ser_step) (done : list objid)
  : list event * list objid :=
  match steps with
  | [] => ([], done)
  | step :: rest =>
      let (e1, d1) := step done in
      let (e2, d2) := serialize_all rest d1 in
      (e1 ++ e2, d2)
  end.

(** [serialize_node]: the events of a node; a node met again is an
    alias. *)
Fixpoint serialize_node (st : anchoring) (n : node) {struct n} : ser_step :=
  match n with
  | ScalarNode tag value => fun done => ([ScalarEvent None tag value], done)
  | SequenceNode key tag value flow_style => fun done =>
      if existsb (Nat.eqb key) done
      then ([AliasEvent (anchor_of st key)], done)
      else
        let (evs, done') :=
          serialize_all (map (serialize_node st) value) (key :: done) in
        (SequenceStartEvent (anchor_of st key) tag flow_style
           :: evs ++ [SequenceEndEvent], done')
  | MappingNode key tag value flow_style => fun done =>
      if existsb (Nat.eqb key) done
      then ([AliasEvent (anchor_of st key)], done)
      else
        let (evs, done') :=
          serialize_all
            (flat_map (fun kv : node * node =>
                         let (k, v) := kv in
                         [serialize_node st k; serialize_node st v])
                      value)
            (key :: done) in
        (MappingStartEvent (anchor_of st key) tag flow_style
           :: evs ++ [MappingEndEvent], done')
  end.

(** The events of [yaml.dump(data, sort_keys=...)]: [open], [represent]
    ([represent_data], then [serialize]), [close]. *)
Definition yaml_events (sort_keys : bool) (data : pyobj) : list event :=
  let (n, _) := represent_data sort_keys data [] in
  let st := anchor_node n {| anchors := []; last_anchor_id := 0 |} in
  let (evs, _) := serialize_node st n [] in
  [StreamStartEvent; DocumentStartEvent] ++ evs
    ++ [DocumentEndEvent; StreamEndEvent].

(** ** The process *)

(** Exceptions the file operations raise. *)
Inductive exception : Type :=
| OSError (errno : N) (strerror : str) (filename : str)
| UnicodeDecodeError (encoding : str) (position : nat) (reason : str)
| UnicodeEncodeError (encoding : str) (reason : str)
| ModuleNotFoundError (name : str)
| IndexError (message : str)
| EmitterError (message : str).

Inductive result (A : Type) : Type :=
| Raise (e : exception)
| Return (a : A).
Arguments Raise {A} e.
Arguments Return {A} a.

(** An open file: what reading it to the end gives, the bytes or the
    error of the read. *)
Record file : Type := { raw_read : result (list Byte.byte) }.

(** The world the process runs in: what [open(path)] gives. *)
Record world : Type := { sys_open : str -> result file }.

(** An exception nobody catches ends the process: the traceback names the
    line of the statement that raised. *)
Record traceback : Type := { tb_lineno : nat; tb_exception : exception }.

Record outcome : Type := {
  exit_status : N;
  stdout : str;
  stderr : option traceback
}.

Definition uncaught (lineno : nat) (e : exception) : outcome :=
  {| exit_status := 1;
     stdout := [];
     stderr := Some {| tb_lineno := lineno; tb_exception := e |} |}.

Definition input_file : str := u "forbidden-extensions.txt".

Section Process.

(** The codec of text mode (the locale's preferred encoding, strict
    errors), and the emitter of PyYAML, which turns the events of the
    serializer into text. *)
Variable decode : list Byte.byte -> result str.
Variable emit : list event -> str.

(** [f.readlines()] in text mode. *)
Definition readlines (f : file) : result (list str) :=
  match raw_read f with
  | Raise e => Raise e
  | Return raw =>
      match decode raw with
      | Raise e => Raise e
      | Return text => Return (lines_of_text text)
      end
  end.

(** [yaml.dump(data, sort_keys=...)] without a stream returns the text. *)
Definition yaml_dump (sort_keys : bool) (data : pyobj) : str :=
  emit (yaml_events sort_keys data).

(** What [print(s)] writes. *)
Definition print (s : str) : str := s ++ [LF].

(** What line 39 writes for the lines read. *)
Definition output_of (lines : list str) : str :=
  print (yaml_dump false (ruleset_of lines)).

(** Lines 6-7: open the file and read its lines. *)
Definition read_input (w : world) : result (list str) :=
  match sys_open w input_file with
  | Raise e => Raise e
  | Return f => readlines f
  end.

(** The script from line 6 to line 39, where [yaml] has been imported
    and standard output accepts what [print] writes; [run], further down,
    is the script without these two assumptions. *)
Definition main (w : world) : outcome :=
  match sys_open w input_file with
  | Raise e => uncaught 6 e
  | Return f =>
      match readlines f with
      | Raise e => uncaught 7 e
      | Return lines =>
          {| exit_status := 0;
             stdout := output_of lines;
             stderr := None |}
      end
  end.

End Process.

(** ** yaml.dump: the emitter of PyYAML *)

(** The emitter as [yaml.dump(ruleset, sort_keys=False)] sets it up: not
    canonical, indent 2, width 80, [allow_unicode] unset, line break LF, no
    encoding, no version or tag directives, documents without explicit
    start or end, every scalar event without a style of its own.  The text
    is written to a string, which [yaml.dump] returns.  The emitter's line
    counter is left out: nothing reads it. *)
Definition best_indent : nat := 2.
Definition best_width : nat := 80.

(** The characteristics of the last character written. *)
Record cursor : Type := {
  column : nat;
  whitespace : bool;
  indention : bool;
  open_ended : bool
}.

(** A writer: from the cursor before to the text written and the cursor
    after. *)
Definition wr : Type := cursor -> str * cursor.

Definition wnil : wr := fun c => ([], c).

Definition wseq (a b : wr) : wr :=
  fun c =>
    let (t1, c1) := a c in
    let (t2, c2) := b c1 in
    (t1 ++ t2, c2).

Definition wwhen (b : bool) (a : wr) : wr := if b then a else wnil.

(** [self.column += len(data); self.stream.write(data)]. *)
Definition write_data (data : str) : wr :=
  fun c =>
    (data, {| column := column c + List.length data;
              whitespace := whitespace c;
              indention := indention c;
              open_ended := open_ended c |}).

(** [self.whitespace = ...; self.indention = ...]. *)
Definition set_flags (ws ind : bool) : wr :=
  fun c =>
    ([], {| column := column c;
            whitespace := ws;
            indention := ind;
            open_ended := open_ended c |}).

Definition set_open_ended (b : bool) : wr :=
  fun c =>
    ([], {| column := column c;
            whitespace := whitespace c;
            indention := indention c;
            open_ended := b |}).

Definition write_indicator (indicator : str)
           (need_whitespace ws ind : bool) : wr :=
  fun c =>
    let data := if whitespace c || negb need_whitespace then indicator
                else SPACE :: indicator in
    (data, {| column := column c + List.length data;
              whitespace := ws;
              indention := indention c && ind;
              open_ended := false |}).

Definition write_line_break (data : str) : wr :=
  fun c =>
    (data, {| column := 0;
              whitespace := true;
              indention := true;
              open_ended := open_ended c |}).

Definition write_indent (indent : option nat) : wr :=
  fun c =>
    let indent := match indent with Some n => n | None => 0%nat end in
    let (t1, c1) :=
      if negb (indention c) || Nat.ltb indent (column c)
         || (Nat.eqb (column c) indent && negb (whitespace c))
      then write_line_break [LF] c
      else ([], c) in
    if Nat.ltb (column c1) indent
    then (t1 ++ repeat SPACE (indent - column c1),
          {| column := indent;
             whitespace := true;
             indention := indention c1;
             open_ended := open_ended c1 |})
    else (t1, c1).

(** Membership of a character in a string, [text[start:end]], and the
    character classes of the emitter. *)
Definition mem (c : char) (s : str) : bool := existsb (N.eqb c) s.

Definition slice (text : str) (start end_ : nat) : str :=
  firstn (end_ - start) (skipn start text).

Definition breaks_chars : str := [10; 133; 8232; 8233].
Definition space_and_breaks : str := SPACE :: breaks_chars.
Definition whitespace_chars : str := [0; 32; 9; 13; 10; 133; 8232; 8233].

Definition is_char (ch : option char) (c : char) : bool :=
  match ch with Some x => x =? c | None => false end.

Definition char_in (ch : option char) (s : str) : bool :=
  match ch with Some x => mem x s | None => false end.

Definition is_none (ch : option char) : bool :=
  match ch with Some _ => false | None => true end.

Definition char_at (text : str) (i : nat) : option char :=
  nth_error text i.

(** [for br in text[start:end]]: a line break per character. *)
Definition write_breaks (brs : str) : wr :=
  fold_right (fun br w =>
                wseq (write_line_break (if br =? LF then [LF] else [br])) w)
             wnil brs.

(** *** Scalar analysis *)

Record ScalarAnalysis : Type := {
  an_scalar : str;
  an_empty : bool;
  an_multiline : bool;
  an_allow_flow_plain : bool;
  an_allow_block_plain : bool;
  an_allow_single_quoted : bool;
  an_allow_double_quoted : bool;
  an_allow_block : bool
}.

(** The variables of the loop of [analyze_scalar]. *)
Record scan : Type := {
  block_indicators : bool;
  flow_indicators : bool;
  line_breaks : bool;
  special_characters : bool;
  leading_space : bool;
  leading_break : bool;
  trailing_space : bool;
  trailing_break : bool;
  break_space : bool;
  space_break : bool;
  preceded_by_whitespace : bool;
  followed_by_whitespace : bool;
  previous_space : bool;
  previous_break : bool
}.

(** One turn of the loop at [index], on the character [ch] there.  With
    [allow_unicode] unset every character other than LF and the printable
    ASCII ones is a special character. *)
Definition analyze_char (text : str) (index : nat) (ch : char) (s : scan)
  : scan :=
  let len := List.length text in
  let first := Nat.eqb index 0 in
  let last := Nat.eqb index (len - 1) in
  let is_space := ch =? SPACE in
  let is_break := mem ch breaks_chars in
  let flow1 :=
    if first then
      mem ch (u "#,[]{}&*!|>'%@`") || (ch =? 34)
      || mem ch (u "?:")
      || ((ch =? 45) && followed_by_whitespace s)
    else
      mem ch (u ",?[]{}") || (ch =? 58)
      || ((ch =? HASH) && preceded_by_whitespace s) in
  let block1 :=
    if first then
      mem ch (u "#,[]{}&*!|>'%@`") || (ch =? 34)
      || (mem ch (u "?:") && followed_by_whitespace s)
      || ((ch =? 45) && followed_by_whitespace s)
    else
      ((ch =? 58) && followed_by_whitespace s)
      || ((ch =? HASH) && preceded_by_whitespace s) in
  {| block_indicators := block_indicators s || block1;
     flow_indicators := flow_indicators s || flow1;
     line_breaks := line_breaks s || is_break;
     special_characters :=
       special_characters s
       || negb ((ch =? LF) || ((32 <=? ch) && (ch <=? 126)));
     leading_space := leading_space s || (is_space && first);
     leading_break := leading_break s || (negb is_space && is_break && first);
     trailing_space := trailing_space s || (is_space && last);
     trailing_break :=
       trailing_break s || (negb is_space && is_break && last);
     break_space := break_space s || (is_space && previous_break s);
     space_break :=
       space_break s || (negb is_space && is_break && previous_space s);
     preceded_by_whitespace := mem ch whitespace_chars;
     followed_by_whitespace :=
       Nat.leb len (index + 2)
       || char_in (char_at text (index + 2)) whitespace_chars;
     previous_space := is_space;
     previous_break := negb is_space && is_break |}.

Fixpoint analyze_loop (fuel : nat) (text : str) (index : nat) (s : scan)
  : scan :=
  match fuel with
  | O => s
  | S fuel' =>
      match char_at text index with
      | None => s
      | Some ch => analyze_loop fuel' text (S index) (analyze_char text index ch s)
      end
  end.

Definition analyze_scalar (text : str) : ScalarAnalysis :=
  match text with
  | [] =>
      {| an_scalar := text; an_empty := true; an_multiline := false;
         an_allow_flow_plain := false; an_allow_block_plain := true;
         an_allow_single_quoted := true; an_allow_double_quoted := true;
         an_allow_block := false |}
  | _ :: _ =>
      let document_indicator :=
        startswith text (u "---") || startswith text (u "...") in
      let s0 :=
        {| block_indicators := document_indicator;
           flow_indicators := document_indicator;
           line_breaks := false;
           special_characters := false;
           leading_space := false;
           leading_break := false;
           trailing_space := false;
           trailing_break := false;
           break_space := false;
           space_break := false;
           preceded_by_whitespace := true;
           followed_by_whitespace :=
             Nat.eqb (List.length text) 1
             || char_in (char_at text 1) whitespace_chars;
           previous_space := false;
           previous_break := false |} in
      let s := analyze_loop (List.length text) text 0 s0 in
      let bad_ends := leading_space s || leading_break s
                      || trailing_space s || trailing_break s in
      let only_double := space_break s || special_characters s in
      {| an_scalar := text;
         an_empty := false;
         an_multiline := line_breaks s;
         an_allow_flow_plain :=
           negb (bad_ends || break_space s || only_double || line_breaks s
                 || flow_indicators s);
         an_allow_block_plain :=
           negb (bad_ends || break_space s || only_double || line_breaks s
                 || block_indicators s);
         an_allow_single_quoted := negb (break_space s || only_double);
         an_allow_double_quoted := true;
         an_allow_block := negb (trailing_space s || only_double) |}
  end.

(** *** Scalar writers *)

(** The loop of [write_plain], at [end_]; [fuel] turns are left.  (Plain
    style is chosen only for a scalar without line breaks, so the branch
    for breaks never meets the end of the text.) *)
Fixpoint write_plain_loop (fuel : nat) (text : str) (split : bool)
         (indent : option nat) (start end_ : nat) (spaces breaks : bool)
  : wr :=
  match fuel with
  | O => wnil
  | S fuel' =>
      fun c =>
        let ch := char_at text end_ in
        let '(t1, c1, start1) :=
          if spaces then
            if negb (is_char ch SPACE) then
              let (t, c') :=
                if Nat.eqb (start + 1) end_ && Nat.ltb best_width (column c)
                   && split
                then wseq (write_indent indent) (set_flags false false) c
                else write_data (slice text start end_) c in
              (t, c', end_)
            else ([], c, start)
          else if breaks then
            if negb (char_in ch breaks_chars) then
              let (t, c') :=
                wseq (wwhen (is_char (char_at text start) LF)
                            (write_line_break [LF]))
                     (wseq (write_breaks (slice text start end_))
                           (wseq (write_indent indent)
                                 (set_flags false false))) c in
              (t, c', end_)
            else ([], c, start)
          else
            if is_none ch || char_in ch space_and_breaks then
              let (t, c') := write_data (slice text start end_) c in
              (t, c', end_)
            else ([], c, start) in
        let spaces1 := match ch with Some x => x =? SPACE | None => spaces end in
        let breaks1 :=
          match ch with Some x => mem x breaks_chars | None => breaks end in
        let (t2, c2) :=
          write_plain_loop fuel' text split indent start1 (S end_)
                           spaces1 breaks1 c1 in
        (t1 ++ t2, c2)
  end.

Definition write_plain (root_context : bool) (text : str) (split : bool)
           (indent : option nat) : wr :=
  wseq (wwhen root_context (set_open_ended true))
       (match text with
        | [] => wnil
        | _ :: _ =>
            wseq (fun c => wwhen (negb (whitespace c)) (write_data [SPACE]) c)
                 (wseq (set_flags false false)
                       (write_plain_loop (S (List.length text)) text split
                                         indent 0 0 false false))
        end).

(** The loop of [write_single_quoted]. *)
Fixpoint write_single_quoted_loop (fuel : nat) (text : str) (split : bool)
         (indent : option nat) (start end_ : nat) (spaces breaks : bool)
  : wr :=
  match fuel with
  | O => wnil
  | S fuel' =>
      fun c =>
        let ch := char_at text end_ in
        let '(t1, c1, start1) :=
          if spaces then
            if is_none ch || negb (is_char ch SPACE) then
              let (t, c') :=
                if Nat.eqb (start + 1) end_ && Nat.ltb best_width (column c)
                   && split && negb (Nat.eqb start 0)
                   && negb (Nat.eqb end_ (List.length text))
                then write_indent indent c
                else write_data (slice text start end_) c in
              (t, c', end_)
            else ([], c, start)
          else if breaks then
            if is_none ch || negb (char_in ch breaks_chars) then
              let (t, c') :=
                wseq (wwhen (is_char (char_at text start) LF)
                            (write_line_break [LF]))
                     (wseq (write_breaks (slice text start end_))
                           (write_indent indent)) c in
              (t, c', end_)
            else ([], c, start)
          else
            if is_none ch || char_in ch space_and_breaks || is_char ch 39 then
              if Nat.ltb start end_ then
                let (t, c') := write_data (slice text start end_) c in
                (t, c', end_)
              else ([], c, start)
            else ([], c, start) in
        let '(t2, c2, start2) :=
          if is_char ch 39 then
            let (t, c') := write_data [39; 39] c1 in (t, c', S end_)
          else ([], c1, start1) in
        let spaces1 := match ch with Some x => x =? SPACE | None => spaces end in
        let breaks1 :=
          match ch with Some x => mem x breaks_chars | None => breaks end in
        let (t3, c3) :=
          write_single_quoted_loop fuel' text split indent start2 (S end_)
                                   spaces1 breaks1 c2 in
        (t1 ++ t2 ++ t3, c3)
  end.

Definition write_single_quoted (text : str) (split : bool)
           (indent : option nat) : wr :=
  wseq (write_indicator [39] true false false)
       (wseq (write_single_quoted_loop (S (List.length text)) text split
                                       indent 0 0 false false)
             (write_indicator [39] false false false)).

(** [ESCAPE_REPLACEMENTS]. *)
Definition escape_replacement (ch : char) : option char :=
  if ch =? 0 then Some 48          (* 0 *)
  else if ch =? 7 then Some 97     (* a *)
  else if ch =? 8 then Some 98     (* b *)
  else if ch =? 9 then Some 116    (* t *)
  else if ch =? 10 then Some 110   (* n *)
  else if ch =? 11 then Some 118   (* v *)
  else if ch =? 12 then Some 102   (* f *)
  else if ch =? 13 then Some 114   (* r *)
  else if ch =? 27 then Some 101   (* e *)
  else if ch =? 34 then Some 34    (* double quote *)
  else if ch =? 92 then Some 92    (* backslash *)
  else if ch =? 133 then Some 78   (* N *)
  else if ch =? 160 then Some 95   (* _ *)
  else if ch =? 8232 then Some 76  (* L *)
  else if ch =? 8233 then Some 80  (* P *)
  else None.

(** [width] hexadecimal digits, upper case: ['%02X'], ['%04X'], ['%08X'] on
    a number that fits. *)
Definition hex_digit (d : N) : char :=
  if d <? 10 then 48 + d else 55 + d.

Fixpoint hex_fixed (width : nat) (n : N) : str :=
  match width with
  | O => []
  | S w => hex_fixed w (n / 16) ++ [hex_digit (n mod 16)]
  end.

Definition escape_sequence (ch : char) : str :=
  match escape_replacement ch with
  | Some r => [92; r]
  | None =>
      if ch <=? 255 then 92 :: 120 :: hex_fixed 2 ch
      else if ch <=? 65535 then 92 :: 117 :: hex_fixed 4 ch
      else 92 :: 85 :: hex_fixed 8 ch
  end.

(** The loop of [write_double_quoted]; with [allow_unicode] unset only
    printable ASCII is written as it is.  The test
    [self.column+(end-start) > self.best_width], in which [end-start] is
    -1 after an escape, is written with [start] moved to the other side. *)
Fixpoint write_double_quoted_loop (fuel : nat) (text : str) (split : bool)
         (indent : option nat) (start end_ : nat) : wr :=
  match fuel with
  | O => wnil
  | S fuel' =>
      fun c =>
        let len := List.length text in
        let ch := char_at text end_ in
        let '(t1, c1, start1) :=
          if is_none ch || char_in ch [34; 92; 133; 8232; 8233; 65279]
             || negb (match ch with
                      | Some x => (32 <=? x) && (x <=? 126)
                      | None => false
                      end)
          then
            let '(ta, ca, starta) :=
              if Nat.ltb start end_ then
                let (t, c') := write_data (slice text start end_) c in
                (t, c', end_)
              else ([], c, start) in
            match ch with
            | Some x =>
                let (t, c') := write_data (escape_sequence x) ca in
                (ta ++ t, c', S end_)
            | None => (ta, ca, starta)
            end
          else ([], c, start) in
        let '(t2, c2, start2) :=
          if Nat.ltb 0 end_ && Nat.ltb end_ (len - 1)
             && (is_char ch SPACE || Nat.leb end_ start1)
             && Nat.ltb (best_width + start1) (column c1 + end_)
             && split
          then
            let start' := if Nat.ltb start1 end_ then end_ else start1 in
            let (t, c') :=
              wseq (write_data (slice text start1 end_ ++ [92]))
                   (wseq (write_indent indent)
                         (wseq (set_flags false false)
                               (wwhen (is_char (char_at text start') SPACE)
                                      (write_data [92])))) c1 in
            (t, c', start')
          else ([], c1, start1) in
        let (t3, c3) :=
          write_double_quoted_loop fuel' text split indent start2 (S end_)
                                   c2 in
        (t1 ++ t2 ++ t3, c3)
  end.

Definition write_double_quoted (text : str) (split : bool)
           (indent : option nat) : wr :=
  wseq (write_indicator [34] true false false)
       (wseq (write_double_quoted_loop (S (List.length text)) text split
                                       indent 0 0)
             (write_indicator [34] false false false)).

(** *** The resolver: implicit tags of plain scalars *)

(** Regular expressions, matched by derivatives. *)
Inductive regex : Type :=
| ReNone
| ReEps
| ReSet (chars : str)
| ReRange (lo hi : char)
| ReCat (r1 r2 : regex)
| ReAlt (r1 r2 : regex)
| ReStar (r : regex).

Fixpoint nullable (r : regex) : bool :=
  match r with
  | ReNone => false
  | ReEps => true
  | ReSet _ => false
  | ReRange _ _ => false
  | ReCat r1 r2 => nullable r1 && nullable r2
  | ReAlt r1 r2 => nullable r1 || nullable r2
  | ReStar _ => true
  end.

Fixpoint derive (c : char) (r : regex) : regex :=
  match r with
  | ReNone => ReNone
  | ReEps => ReNone
  | ReSet chars => if mem c chars then ReEps else ReNone
  | ReRange lo hi => if (lo <=? c) && (c <=? hi) then ReEps else ReNone
  | ReCat r1 r2 =>
      if nullable r1 then ReAlt (ReCat (derive c r1) r2) (derive c r2)
      else ReCat (derive c r1) r2
  | ReAlt r1 r2 => ReAlt (derive c r1) (derive c r2)
  | ReStar r1 => ReCat (derive c r1) (ReStar r1)
  end.

Definition full_match (r : regex) (s : str) : bool :=
  nullable (fold_left (fun r c => derive c r) s r).

(** [regexp.match(value)] for a pattern [^(?:...)$]: the end of the pattern
    is the end of the value or stands before a last LF. *)
Definition re_match (r : regex) (value : str) : bool :=
  full_match r value
  || match rev value with
     | c :: before => (c =? LF) && full_match r (rev before)
     | [] => false
     end.

Definition re_lit (s : str) : regex :=
  fold_right (fun c r => ReCat (ReSet [c]) r) ReEps s.

Definition re_alts (rs : list regex) : regex := fold_right ReAlt ReNone rs.
Definition re_seq (rs : list regex) : regex := fold_right ReCat ReEps rs.
Definition re_opt (r : regex) : regex := ReAlt ReEps r.
Definition re_plus (r : regex) : regex := ReCat r (ReStar r).
Definition re_lits (l : list str) : regex := re_alts (map re_lit l).

Definition re_digit : regex := ReRange 48 57.
Definition re_digit_ : regex := ReAlt re_digit (ReSet (u "_")).
Definition re_sign : regex := re_opt (ReSet (u "-+")).
Definition re_exponent : regex :=
  re_opt (re_seq [ReSet (u "eE"); ReSet (u "-+"); re_plus re_digit]).
Definition re_sexagesimal : regex :=
  re_plus (re_seq [re_lit (u ":"); re_opt (ReRange 48 53); re_digit]).
Definition re_blank : regex := ReSet [32; 9].

Definition bool_regexp : regex :=
  re_lits [u "yes"; u "Yes"; u "YES"; u "no"; u "No"; u "NO";
           u "true"; u "True"; u "TRUE"; u "false"; u "False"; u "FALSE";
           u "on"; u "On"; u "ON"; u "off"; u "Off"; u "OFF"].

Definition float_regexp : regex :=
  re_alts
    [re_seq [re_sign; re_digit; ReStar re_digit_; re_lit (u ".");
             ReStar re_digit_; re_exponent];
     re_seq [re_lit (u "."); re_digit; ReStar re_digit_; re_exponent];
     re_seq [re_sign; re_digit; ReStar re_digit_; re_sexagesimal;
             re_lit (u "."); ReStar re_digit_];
     re_seq [re_sign; re_lit (u "."); re_lits [u "inf"; u "Inf"; u "INF"]];
     re_seq [re_lit (u "."); re_lits [u "nan"; u "NaN"; u "NAN"]]].

Definition int_regexp : regex :=
  re_alts
    [re_seq [re_sign; re_lit (u "0b"); re_plus (ReSet (u "01_"))];
     re_seq [re_sign; re_lit (u "0");
             re_plus (ReAlt (ReRange 48 55) (ReSet (u "_")))];
     re_seq [re_sign;
             ReAlt (re_lit (u "0"))
                   (ReCat (ReRange 49 57) (ReStar re_digit_))];
     re_seq [re_sign; re_lit (u "0x");
             re_plus (re_alts [re_digit; ReRange 97 102; ReRange 65 70;
                               ReSet (u "_")])];
     re_seq [re_sign; ReRange 49 57; ReStar re_digit_; re_sexagesimal]].

Definition merge_regexp : regex := re_lit (u "<<").

Definition null_regexp : regex :=
  re_lits [u "~"; u "null"; u "Null"; u "NULL"; u ""].

Definition timestamp_regexp : regex :=
  re_alts
    [re_seq [re_digit; re_digit; re_digit; re_digit; re_lit (u "-");
             re_digit; re_digit; re_lit (u "-"); re_digit; re_digit];
     re_seq [re_digit; re_digit; re_digit; re_digit;
             re_lit (u "-"); re_digit; re_opt re_digit;
             re_lit (u "-"); re_digit; re_opt re_digit;
             ReAlt (ReSet (u "Tt")) (re_plus re_blank);
             re_digit; re_opt re_digit;
             re_lit (u ":"); re_digit; re_digit;
             re_lit (u ":"); re_digit; re_digit;
             re_opt (ReCat (re_lit (u ".")) (ReStar re_digit));
             re_opt (ReCat (ReStar re_blank)
                           (ReAlt (re_lit (u "Z"))
                                  (re_seq [ReSet (u "-+"); re_digit;
                                           re_opt re_digit;
                                           re_opt (re_seq [re_lit (u ":");
                                                           re_digit;
                                                           re_digit])])))]].

Definition value_regexp : regex := re_lit (u "=").

Definition yaml_regexp : regex := re_lits [u "!"; u "&"; u "*"].

(** [yaml_implicit_resolvers]: the tag, the pattern, and the first
    characters under which the resolver is listed ([None] lists it for
    the empty value). *)
Definition implicit_resolvers : list (str * regex * list (option char)) :=
  [(u "tag:yaml.org,2002:bool", bool_regexp, map Some (u "yYnNtTfFoO"));
   (u "tag:yaml.org,2002:float", float_regexp, map Some (u "-+0123456789."));
   (u "tag:yaml.org,2002:int", int_regexp, map Some (u "-+0123456789"));
   (u "tag:yaml.org,2002:merge", merge_regexp, [Some 60]);
   (u "tag:yaml.org,2002:null", null_regexp, [Some 126; Some 110; Some 78; None]);
   (u "tag:yaml.org,2002:timestamp", timestamp_regexp,
    map Some (u "0123456789"));
   (u "tag:yaml.org,2002:value", value_regexp, [Some 61]);
   (u "tag:yaml.org,2002:yaml", yaml_regexp, map Some (u "!&*"))].

Definition option_char_eqb (a b : option char) : bool :=
  match a, b with
  | Some x, Some y => x =? y
  | None, None => true
  | _, _ => false
  end.

(** [resolve(ScalarNode, value, (True, False))]. *)
Definition resolve_scalar (value : str) : str :=
  let first := match value with [] => None | c :: _ => Some c end in
  match
    find (fun r : str * regex * list (option char) =>
            let '(_, regexp, firsts) := r in
            existsb (option_char_eqb first) firsts && re_match regexp value)
         implicit_resolvers
  with
  | Some (tag, _, _) => tag
  | None => tag_str
  end.

(** The [implicit] pair of a scalar event, as [serialize_node] computes
    it. *)
Definition scalar_implicit (tag value : str) : bool * bool :=
  (str_eqb tag (resolve_scalar value), str_eqb tag tag_str).

(** *** Anchors and tags *)

Definition is_alnum (c : char) : bool :=
  ((48 <=? c) && (c <=? 57)) || ((65 <=? c) && (c <=? 90))
  || ((97 <=? c) && (c <=? 122)).

Definition prepare_anchor (anchor : str) : result str :=
  match anchor with
  | [] => Raise (EmitterError (u "anchor must not be empty"))
  | _ :: _ =>
      if forallb (fun c => is_alnum c || mem c (u "-_")) anchor
      then Return anchor
      else Raise (EmitterError (u "invalid character in the anchor"))
  end.

(** [ch.encode('utf-8')]; [None] for a surrogate, which has no encoding. *)
Definition utf8_encode_char (c : char) : option (list N) :=
  if c <? 128 then Some [c]
  else if c <? 2048 then Some [192 + c / 64; 128 + c mod 64]
  else if (55296 <=? c) && (c <=? 57343) then None
  else if c <? 65536 then
    Some [224 + c / 4096; 128 + (c / 64) mod 64; 128 + c mod 64]
  else
    Some [240 + c / 262144; 128 + (c / 4096) mod 64; 128 + (c / 64) mod 64;
          128 + c mod 64].

Definition percent_escape (c : char) : result str :=
  match utf8_encode_char c with
  | Some bytes => Return (flat_map (fun b => 37 :: hex_fixed 2 b) bytes)
  | None => Raise (UnicodeEncodeError (u "utf-8") (u "surrogates not allowed"))
  end.

Fixpoint escape_suffix (handle_is_bang : bool) (suffix : str) : result str :=
  match suffix with
  | [] => Return []
  | ch :: rest =>
      let kept := is_alnum ch || mem ch (u "-;/?:@&=+$,_.~*'()[]")
                  || ((ch =? 33) && negb handle_is_bang) in
      match (if kept then Return [ch] else percent_escape ch) with
      | Raise e => Raise e
      | Return t =>
          match escape_suffix handle_is_bang rest with
          | Raise e => Raise e
          | Return t' => Return (t ++ t')
          end
      end
  end.

(** [prepare_tag] with [DEFAULT_TAG_PREFIXES]. *)
Definition prepare_tag (tag : str) : result str :=
  match tag with
  | [] => Raise (EmitterError (u "tag must not be empty"))
  | _ :: _ =>
      if str_eqb tag (u "!") then Return tag
      else
        let yaml_prefix := u "tag:yaml.org,2002:" in
        let '(handle, suffix) :=
          if startswith tag yaml_prefix
             && Nat.ltb (List.length yaml_prefix) (List.length tag)
          then (Some (u "!!"), skipn (List.length yaml_prefix) tag)
          else if startswith tag (u "!") then (Some (u "!"), skipn 1 tag)
          else (None, tag) in
        match
          escape_suffix (match handle with
                         | Some h => str_eqb h (u "!")
                         | None => false
                         end) suffix
        with
        | Raise e => Raise e
        | Return suffix_text =>
            match handle with
            | Some h => Return (h ++ suffix_text)
            | None => Return (u "!<" ++ suffix_text ++ u ">")
            end
        end
  end.

(** *** The state machine *)

(** The handlers a state of the emitter can be. *)
Inductive handler : Type :=
| expect_stream_start
| expect_first_document_start
| expect_document_start
| expect_document_root
| expect_document_end
| expect_first_flow_sequence_item
| expect_flow_sequence_item
| expect_first_flow_mapping_key
| expect_flow_mapping_key
| expect_flow_mapping_simple_value
| expect_flow_mapping_value
| expect_first_block_sequence_item
| expect_block_sequence_item
| expect_first_block_mapping_key
| expect_block_mapping_key
| expect_block_mapping_simple_value
| expect_block_mapping_value
| expect_nothing.

Record emitter : Type := {
  states : list handler;
  state : handler;
  indents : list (option nat);
  indent : option nat;
  flow_level : nat;
  root_context : bool;
  sequence_context : bool;
  mapping_context : bool;
  simple_key_context : bool;
  cur : cursor
}.

Definition initial_emitter : emitter :=
  {| states := [];
     state := expect_stream_start;
     indents := [];
     indent := None;
     flow_level := 0;
     root_context := false;
     sequence_context := false;
     mapping_context := false;
     simple_key_context := false;
     cur := {| column := 0; whitespace := true; indention := true;
               open_ended := false |} |}.

Definition with_cur (em : emitter) (c : cursor) : emitter :=
  {| states := states em; state := state em; indents := indents em;
     indent := indent em; flow_level := flow_level em;
     root_context := root_context em;
     sequence_context := sequence_context em;
     mapping_context := mapping_context em;
     simple_key_context := simple_key_context em;
     cur := c |}.

Definition with_state (em : emitter) (h : handler) : emitter :=
  {| states := states em; state := h; indents := indents em;
     indent := indent em; flow_level := flow_level em;
     root_context := root_context em;
     sequence_context := sequence_context em;
     mapping_context := mapping_context em;
     simple_key_context := simple_key_context em;
     cur := cur em |}.

Definition with_states (em : emitter) (hs : list handler) : emitter :=
  {| states := hs; state := state em; indents := indents em;
     indent := indent em; flow_level := flow_level em;
     root_context := root_context em;
     sequence_context := sequence_context em;
     mapping_context := mapping_context em;
     simple_key_context := simple_key_context em;
     cur := cur em |}.

Definition with_indent (em : emitter) (ins : list (option nat))
           (i : option nat) : emitter :=
  {| states := states em; state := state em; indents := ins;
     indent := i; flow_level := flow_level em;
     root_context := root_context em;
     sequence_context := sequence_context em;
     mapping_context := mapping_context em;
     simple_key_context := simple_key_context em;
     cur := cur em |}.

Definition with_flow_level (em : emitter) (n : nat) : emitter :=
  {| states := states em; state := state em; indents := indents em;
     indent := indent em; flow_level := n;
     root_context := root_context em;
     sequence_context := sequence_context em;
     mapping_context := mapping_context em;
     simple_key_context := simple_key_context em;
     cur := cur em |}.

Definition with_contexts (em : emitter) (root sequence mapping simple_key : bool)
  : emitter :=
  {| states := states em; state := state em; indents := indents em;
     indent := indent em; flow_level := flow_level em;
     root_context := root;
     sequence_context := sequence;
     mapping_context := mapping;
     simple_key_context := simple_key;
     cur := cur em |}.

(** A step of the emitter: the text written and the emitter after, or the
    exception raised. *)
Definition emitted : Type := result (str * emitter).

Definition write (w : wr) (em : emitter) : emitted :=
  let (t, c) := w (cur em) in Return (t, with_cur em c).

Definition then_ (a : emitted) (k : emitter -> emitted) : emitted :=
  match a with
  | Raise e => Raise e
  | Return (t1, em1) =>
      match k em1 with
      | Raise e => Raise e
      | Return (t2, em2) => Return (t1 ++ t2, em2)
      end
  end.

Definition silently (em : emitter) : emitted := Return ([], em).

(** [self.state = self.states.pop()] and [self.indent = self.indents.pop()];
    [pop] on an empty list raises [IndexError]. *)
Definition pop_state (em : emitter) : emitted :=
  match states em with
  | [] => Raise (IndexError (u "pop from empty list"))
  | h :: hs => silently (with_state (with_states em hs) h)
  end.

Definition pop_indent (em : emitter) : emitted :=
  match indents em with
  | [] => Raise (IndexError (u "pop from empty list"))
  | i :: ins => silently (with_indent em ins i)
  end.

Definition push_state (h : handler) (em : emitter) : emitter :=
  with_states em (h :: states em).

Definition increase_indent (flow indentless : bool) (em : emitter) : emitter :=
  with_indent em (indent em :: indents em)
    (match indent em with
     | None => Some (if flow then best_indent else 0%nat)
     | Some n => Some (if indentless then n else (n + best_indent)%nat)
     end).

(** The checks on the event and on the event after it, [self.events[0]]. *)
Definition check_empty_sequence (ev : event) (next : option event) : bool :=
  match ev, next with
  | SequenceStartEvent _ _ _, Some SequenceEndEvent => true
  | _, _ => false
  end.

Definition check_empty_mapping (ev : event) (next : option event) : bool :=
  match ev, next with
  | MappingStartEvent _ _ _, Some MappingEndEvent => true
  | _, _ => false
  end.

Definition event_anchor (ev : event) : option str :=
  match ev with
  | AliasEvent a => a
  | ScalarEvent a _ _ => a
  | SequenceStartEvent a _ _ => a
  | MappingStartEvent a _ _ => a
  | _ => None
  end.

Definition event_tag (ev : event) : option str :=
  match ev with
  | ScalarEvent _ tag _ => Some tag
  | SequenceStartEvent _ tag _ => Some tag
  | MappingStartEvent _ tag _ => Some tag
  | _ => None
  end.

Definition prepared_length (prepared : option (result str)) : result nat :=
  match prepared with
  | None => Return 0%nat
  | Some (Raise e) => Raise e
  | Some (Return t) => Return (List.length t)
  end.

Definition check_simple_key (ev : event) (next : option event)
  : result bool :=
  match prepared_length (option_map prepare_anchor (event_anchor ev)) with
  | Raise e => Raise e
  | Return anchor_length =>
      match prepared_length (option_map prepare_tag (event_tag ev)) with
      | Raise e => Raise e
      | Return tag_length =>
          let scalar_length :=
            match ev with
            | ScalarEvent _ _ value => List.length value
            | _ => 0%nat
            end in
          let simple :=
            match ev with
            | AliasEvent _ => true
            | ScalarEvent _ _ value =>
                let analysis := analyze_scalar value in
                negb (an_empty analysis) && negb (an_multiline analysis)
            | _ => false
            end in
          Return (Nat.ltb (anchor_length + tag_length + scalar_length) 128
                  && (simple || check_empty_sequence ev next
                      || check_empty_mapping ev next))
      end
  end.

Definition process_anchor (indicator : str) (anchor : option str)
           (em : emitter) : emitted :=
  match anchor with
  | None => silently em
  | Some a =>
      match prepare_anchor a with
      | Raise e => Raise e
      | Return prepared => write (write_indicator (indicator ++ prepared) true
                                                  false false) em
      end
  end.

Inductive scalar_style : Type :=
| Plain
| SingleQuoted
| DoubleQuoted.

(** [choose_scalar_style] for an event without style. *)
Definition choose_scalar_style (em : emitter) (tag value : str)
  : scalar_style :=
  let analysis := analyze_scalar value in
  if fst (scalar_implicit tag value)
     && negb (simple_key_context em
              && (an_empty analysis || an_multiline analysis))
     && (if Nat.ltb 0 (flow_level em) then an_allow_flow_plain analysis
         else an_allow_block_plain analysis)
  then Plain
  else if an_allow_single_quoted analysis
          && negb (simple_key_context em && an_multiline analysis)
  then SingleQuoted
  else DoubleQuoted.

Definition write_tag (tag : str) (em : emitter) : emitted :=
  match prepare_tag tag with
  | Raise e => Raise e
  | Return prepared => write (write_indicator prepared true false false) em
  end.

(** [process_tag]: the tag is written only when it is not implicit. *)
Definition process_scalar_tag (tag value : str) (em : emitter) : emitted :=
  let implicit := scalar_implicit tag value in
  match choose_scalar_style em tag value with
  | Plain => if fst implicit then silently em else write_tag tag em
  | _ => if snd implicit then silently em else write_tag tag em
  end.

Definition process_collection_tag (tag default_tag : str) (em : emitter)
  : emitted :=
  if str_eqb tag default_tag then silently em else write_tag tag em.

Definition process_scalar (tag value : str) (em : emitter) : emitted :=
  let split := negb (simple_key_context em) in
  write (match choose_scalar_style em tag value with
         | DoubleQuoted => write_double_quoted value split (indent em)
         | SingleQuoted => write_single_quoted value split (indent em)
         | Plain => write_plain (root_context em) value split (indent em)
         end) em.

Definition expect_scalar (tag value : str) (em : emitter) : emitted :=
  then_ (process_scalar tag value (increase_indent true false em))
        (fun em => then_ (pop_indent em) pop_state).

Definition expect_node (root sequence mapping simple_key : bool)
           (ev : event) (next : option event) (em : emitter) : emitted :=
  let em := with_contexts em root sequence mapping simple_key in
  match ev with
  | AliasEvent anchor =>
      match anchor with
      | None => Raise (EmitterError (u "anchor is not specified for alias"))
      | Some _ => then_ (process_anchor (u "*") anchor em) pop_state
      end
  | ScalarEvent anchor tag value =>
      then_ (process_anchor (u "&") anchor em)
            (fun em => then_ (process_scalar_tag tag value em)
                             (expect_scalar tag value))
  | SequenceStartEvent anchor tag flow_style =>
      then_ (process_anchor (u "&") anchor em)
            (fun em =>
               then_ (process_collection_tag tag tag_seq em)
                     (fun em =>
                        if Nat.ltb 0 (flow_level em) || flow_style
                           || check_empty_sequence ev next
                        then
                          then_ (write (write_indicator (u "[") true true false)
                                       em)
                                (fun em =>
                                   silently
                                     (with_state
                                        (increase_indent true false
                                           (with_flow_level em
                                              (S (flow_level em))))
                                        expect_first_flow_sequence_item))
                        else
                          let indentless :=
                            mapping_context em && negb (indention (cur em)) in
                          silently
                            (with_state (increase_indent false indentless em)
                                        expect_first_block_sequence_item)))
  | MappingStartEvent anchor tag flow_style =>
      then_ (process_anchor (u "&") anchor em)
            (fun em =>
               then_ (process_collection_tag tag tag_map em)
                     (fun em =>
                        if Nat.ltb 0 (flow_level em) || flow_style
                           || check_empty_mapping ev next
                        then
                          then_ (write (write_indicator (u "{") true true false)
                                       em)
                                (fun em =>
                                   silently
                                     (with_state
                                        (increase_indent true false
                                           (with_flow_level em
                                              (S (flow_level em))))
                                        expect_first_flow_mapping_key))
                        else
                          silently
                            (with_state (increase_indent false false em)
                                        expect_first_block_mapping_key)))
  | _ => Raise (EmitterError (u "expected NodeEvent"))
  end.

(** The end of a flow collection: [indicator] is the closing bracket. *)
Definition end_flow (indicator : str) (em : emitter) : emitted :=
  then_ (pop_indent em)
        (fun em =>
           then_ (write (write_indicator indicator false false false)
                        (with_flow_level em (flow_level em - 1)))
                 pop_state).

Definition indent_if_wide (em : emitter) : emitted :=
  if Nat.ltb best_width (column (cur em))
  then write (write_indent (indent em)) em
  else silently em.

Definition flow_mapping_key (ev : event) (next : option event)
           (em : emitter) : emitted :=
  then_ (indent_if_wide em)
        (fun em =>
           match check_simple_key ev next with
           | Raise e => Raise e
           | Return true =>
               expect_node false false true true ev next
                 (push_state expect_flow_mapping_simple_value em)
           | Return false =>
               then_ (write (write_indicator (u "?") true false false) em)
                     (fun em =>
                        expect_node false false true false ev next
                          (push_state expect_flow_mapping_value em))
           end).

Definition is_sequence_end (ev : event) : bool :=
  match ev with SequenceEndEvent => true | _ => false end.

Definition is_mapping_end (ev : event) : bool :=
  match ev with MappingEndEvent => true | _ => false end.

Definition block_sequence_item (first : bool) (ev : event)
           (next : option event) (em : emitter) : emitted :=
  if negb first && is_sequence_end ev
  then then_ (pop_indent em) pop_state
  else
    then_ (write (wseq (write_indent (indent em))
                       (write_indicator (u "-") true false true)) em)
          (fun em =>
             expect_node false true false false ev next
               (push_state expect_block_sequence_item em)).

Definition block_mapping_key (first : bool) (ev : event)
           (next : option event) (em : emitter) : emitted :=
  if negb first && is_mapping_end ev
  then then_ (pop_indent em) pop_state
  else
    then_ (write (write_indent (indent em)) em)
          (fun em =>
             match check_simple_key ev next with
             | Raise e => Raise e
             | Return true =>
                 expect_node false false true true ev next
                   (push_state expect_block_mapping_simple_value em)
             | Return false =>
                 then_ (write (write_indicator (u "?") true false true) em)
                       (fun em =>
                          expect_node false false true false ev next
                            (push_state expect_block_mapping_value em))
             end).

(** [expect_document_start]: the first document starts without [---];
    at the end of the stream an open-ended document is closed by
    [...]. *)
Definition document_start (first : bool) (ev : event) (em : emitter)
  : emitted :=
  match ev with
  | DocumentStartEvent =>
      then_ (if first then silently em
             else write (wseq (write_indent (indent em))
                              (write_indicator (u "---") true false false))
                        em)
            (fun em => silently (with_state em expect_document_root))
  | StreamEndEvent =>
      then_ (if open_ended (cur em)
             then write (wseq (write_indicator (u "...") true false false)
                              (write_indent (indent em))) em
             else silently em)
            (fun em => silently (with_state em expect_nothing))
  | _ => Raise (EmitterError (u "expected DocumentStartEvent"))
  end.

(** [self.state()] on the event, with the event after it at hand. *)
Definition emitter_step (ev : event) (next : option event) (em : emitter)
  : emitted :=
  match state em with
  | expect_stream_start =>
      match ev with
      | StreamStartEvent =>
          silently (with_state em expect_first_document_start)
      | _ => Raise (EmitterError (u "expected StreamStartEvent"))
      end
  | expect_first_document_start => document_start true ev em
  | expect_document_start => document_start false ev em
  | expect_document_root =>
      expect_node true false false false ev next
        (push_state expect_document_end em)
  | expect_document_end =>
      match ev with
      | DocumentEndEvent =>
          then_ (write (write_indent (indent em)) em)
                (fun em => silently (with_state em expect_document_start))
      | _ => Raise (EmitterError (u "expected DocumentEndEvent"))
      end
  | expect_first_flow_sequence_item =>
      if is_sequence_end ev then end_flow (u "]") em
      else
        then_ (indent_if_wide em)
              (fun em =>
                 expect_node false true false false ev next
                   (push_state expect_flow_sequence_item em))
  | expect_flow_sequence_item =>
      if is_sequence_end ev then end_flow (u "]") em
      else
        then_ (write (write_indicator (u ",") false false false) em)
              (fun em =>
                 then_ (indent_if_wide em)
                       (fun em =>
                          expect_node false true false false ev next
                            (push_state expect_flow_sequence_item em)))
  | expect_first_flow_mapping_key =>
      if is_mapping_end ev then end_flow (u "}") em
      else flow_mapping_key ev next em
  | expect_flow_mapping_key =>
      if is_mapping_end ev then end_flow (u "}") em
      else
        then_ (write (write_indicator (u ",") false false false) em)
              (flow_mapping_key ev next)
  | expect_flow_mapping_simple_value =>
      then_ (write (write_indicator (u ":") false false false) em)
            (fun em =>
               expect_node false false true false ev next
                 (push_state expect_flow_mapping_key em))
  | expect_flow_mapping_value =>
      then_ (indent_if_wide em)
            (fun em =>
               then_ (write (write_indicator (u ":") true false false) em)
                     (fun em =>
                        expect_node false false true false ev next
                          (push_state expect_flow_mapping_key em)))
  | expect_first_block_sequence_item => block_sequence_item true ev next em
  | expect_block_sequence_item => block_sequence_item false ev next em
  | expect_first_block_mapping_key => block_mapping_key true ev next em
  | expect_block_mapping_key => block_mapping_key false ev next em
  | expect_block_mapping_simple_value =>
      then_ (write (write_indicator (u ":") false false false) em)
            (fun em =>
               expect_node false false true false ev next
                 (push_state expect_block_mapping_key em))
  | expect_block_mapping_value =>
      then_ (write (wseq (write_indent (indent em))
                         (write_indicator (u ":") true false true)) em)
            (fun em =>
               expect_node false false true false ev next
                 (push_state expect_block_mapping_key em))
  | expect_nothing => Raise (EmitterError (u "expected nothing"))
  end.

(** [need_more_events] and [need_events]: the emitter holds an event back
    until the events it may look ahead at have come, one after
    DOCUMENT-START, two after SEQUENCE-START, three after MAPPING-START,
    or until the collection, the document or the stream is closed.
    [level_closes] is the loop of [need_events] over [self.events[1:]]. *)
Fixpoint level_closes (events : list event) (level : nat) : bool :=
  match events with
  | [] => false
  | ev :: rest =>
      match ev with
      | DocumentStartEvent | SequenceStartEvent _ _ _
      | MappingStartEvent _ _ _ => level_closes rest (S level)
      | DocumentEndEvent | SequenceEndEvent | MappingEndEvent =>
          match level with
          | O => true
          | S level' => level_closes rest level'
          end
      | StreamEndEvent => true
      | _ => level_closes rest level
      end
  end.

Definition need_events (count : nat) (events : list event) : bool :=
  negb (level_closes (tl events) 0)
  && Nat.ltb (List.length events) (count + 1).

Definition need_more_events (events : list event) : bool :=
  match events with
  | [] => true
  | DocumentStartEvent :: _ => need_events 1 events
  | SequenceStartEvent _ _ _ :: _ => need_events 2 events
  | MappingStartEvent _ _ _ :: _ => need_events 3 events
  | _ :: _ => false
  end.

(** The loop of [emit]: while no more events are needed, the first event
    of the queue is taken off and handled, the rest of the queue being
    what the handler can look ahead at.  [text] is what has been written,
    [events] the queue; a turn takes one event off, so the length of the
    queue bounds the turns. *)
Fixpoint emit_loop (fuel : nat) (text : str) (em : emitter)
         (events : list event) : result (str * emitter * list event) :=
  match fuel with
  | O => Return (text, em, events)
  | S fuel' =>
      if need_more_events events then Return (text, em, events)
      else
        match events with
        | [] => Return (text, em, events)
        | ev :: rest =>
            match emitter_step ev (hd_error rest) em with
            | Raise e => Raise e
            | Return (t, em') => emit_loop fuel' (text ++ t) em' rest
            end
        end
  end.

(** [emit(event)]. *)
Definition emit (ev : event) (text : str) (em : emitter)
           (events : list event) : result (str * emitter * list event) :=
  emit_loop (S (List.length events)) text em (events ++ [ev]).

(** The events of the serializer handed to [emit] one by one. *)
Fixpoint emit_all (evs : list event) (text : str) (em : emitter)
         (events : list event) : result (str * emitter * list event) :=
  match evs with
  | [] => Return (text, em, events)
  | ev :: rest =>
      match emit ev text em events with
      | Raise e => Raise e
      | Return (text', em', events') => emit_all rest text' em' events'
      end
  end.

(** The text the emitter makes of a stream of events. *)
Definition emit_stream (events : list event) : result str :=
  match emit_all events [] initial_emitter [] with
  | Raise e => Raise e
  | Return (text, _, _) => Return text
  end.

(** [yaml.dump(data, sort_keys=...)] with no stream given: the text. *)
Definition pyyaml_dump (sort_keys : bool) (data : pyobj) : result str :=
  emit_stream (yaml_events sort_keys data).

(** The events handled one after the other without a queue, each with the
    event that follows it at hand; [after] is the event that follows the
    last of them, if any.  On a stream that ends with STREAM-END this is
    what [emit] does, as is proved below. *)
Fixpoint emit_events (events : list event) (after : option event)
         (em : emitter) : emitted :=
  match events with
  | [] => silently em
  | ev :: rest =>
      then_ (emitter_step ev
                          (match rest with
                           | [] => after
                           | next :: _ => Some next
                           end) em)
            (emit_events rest after)
  end.

Definition play_events (events : list event) : result str :=
  match emit_events events None initial_emitter with
  | Raise e => Raise e
  | Return (text, _) => Return text
  end.

Definition played (text : str) (em : emitter) (events : list event)
  : emitted :=
  then_ (Return (text, em)) (emit_events events None).

(** ** The run in its environment *)

(** The UTF-8 codec with strict errors, one of the codecs text mode can
    have, as the incremental decoder of text mode reports its errors on an
    input that fits one read of the file: a byte that cannot be decoded at
    its index, a sequence cut off by the end of the file at index 0 of the
    bytes held back. *)
Definition continuation (b : N) : bool := (128 <=? b) && (b <=? 191).

Definition utf8_error (position : nat) (reason : string) : result str :=
  Raise (UnicodeDecodeError (u "utf-8") position (u reason)).

Fixpoint utf8_decode_from (position : nat) (bytes : list N) : result str :=
  let bad_start := utf8_error position "invalid start byte" in
  let bad_next := utf8_error position "invalid continuation byte" in
  let truncated := utf8_error 0 "unexpected end of data" in
  let more (c : char) (n : nat) (rest : list N) : result str :=
    match utf8_decode_from (position + n) rest with
    | Raise e => Raise e
    | Return s => Return (c :: s)
    end in
  match bytes with
  | [] => Return []
  | b0 :: r0 =>
      if b0 <? 128 then more b0 1%nat r0
      else if b0 <? 194 then bad_start
      else if b0 <? 224 then
        match r0 with
        | [] => truncated
        | b1 :: r1 =>
            if continuation b1
            then more ((b0 - 192) * 64 + (b1 - 128)) 2%nat r1
            else bad_next
        end
      else if b0 <? 240 then
        match r0 with
        | [] => truncated
        | b1 :: r1 =>
            if continuation b1
               && (if b0 =? 224 then 160 <=? b1 else true)
               && (if b0 =? 237 then b1 <=? 159 else true)
            then
              match r1 with
              | [] => truncated
              | b2 :: r2 =>
                  if continuation b2
                  then more ((b0 - 224) * 4096 + (b1 - 128) * 64 + (b2 - 128))
                            3%nat r2
                  else bad_next
              end
            else bad_next
        end
      else if b0 <? 245 then
        match r0 with
        | [] => truncated
        | b1 :: r1 =>
            if continuation b1
               && (if b0 =? 240 then 144 <=? b1 else true)
               && (if b0 =? 244 then b1 <=? 143 else true)
            then
              match r1 with
              | [] => truncated
              | b2 :: r2 =>
                  if continuation b2 then
                    match r2 with
                    | [] => truncated
                    | b3 :: r3 =>
                        if continuation b3
                        then more ((b0 - 240) * 262144 + (b1 - 128) * 4096
                                   + (b2 - 128) * 64 + (b3 - 128)) 4%nat r3
                        else bad_next
                    end
                  else bad_next
              end
            else bad_next
        end
      else bad_start
  end.

Definition utf8_decode (raw : list Byte.byte) : result str :=
  utf8_decode_from 0 (map Byte.to_N raw).

(** What becomes of the text that [print] writes to standard output, as
    CPython behaves when it runs a script file.  Every write succeeds and
    so does the flush at exit.  Or [print] returns, no error is reported,
    and yet only a part of the text is delivered: there is no standard
    output ([sys.stdout] is [None]) and [print] does nothing, or a write
    fails in the flush that the interpreter makes when the script has
    ended, where the error is dropped together with the text (on a full
    device this is what happens to a text of more bytes than the block of
    the device and fewer than the 8192 of the text layer's buffer).  Or a
    write fails inside [print], which raises.  Or [print] returns and the
    flush at exit fails.  [delivered] counts the characters that have
    reached standard output. *)
Inductive stdout_result : Type :=
| Accepted
| Unreported (delivered : nat)
| WriteFails (e : exception) (delivered : nat)
| FlushFails (e : exception) (delivered : nat).

(** The environment of a run: whether [import yaml] succeeds, the files,
    the codec of text mode (the locale's preferred encoding, since line 6
    names none), and what standard output does with a text. *)
Record environment : Type := {
  env_import_yaml : result unit;
  env_files : world;
  env_decode : list Byte.byte -> result str;
  env_stdout : str -> stdout_result
}.

(** What the run leaves on standard error: nothing, the traceback of an
    uncaught exception, or the note about an exception ignored when the
    interpreter shuts down. *)
Inductive diagnostic : Type :=
| Quiet
| Uncaught (tb : traceback)
| IgnoredAtExit (e : exception).

Record run_outcome : Type := {
  run_status : N;
  run_stdout : str;
  run_stderr : diagnostic
}.

Definition dies (lineno : nat) (e : exception) : run_outcome :=
  {| run_status := 1;
     run_stdout := [];
     run_stderr := Uncaught {| tb_lineno := lineno; tb_exception := e |} |}.

(** Line 39 once the text is made. *)
Definition print_to (out : str -> stdout_result) (text : str) : run_outcome :=
  match out (print text) with
  | Accepted =>
      {| run_status := 0; run_stdout := print text; run_stderr := Quiet |}
  | Unreported delivered =>
      {| run_status := 0;
         run_stdout := firstn delivered (print text);
         run_stderr := Quiet |}
  | WriteFails e delivered =>
      {| run_status := 1;
         run_stdout := firstn delivered (print text);
         run_stderr := Uncaught {| tb_lineno := 39; tb_exception := e |} |}
  | FlushFails e delivered =>
      {| run_status := 120;
         run_stdout := firstn delivered (print text);
         run_stderr := IgnoredAtExit e |}
  end.

(** The script from [import yaml] to the exit of the interpreter.  [import
    re] on line 3 does not fail once [import yaml] has succeeded: PyYAML
    has imported [re] itself.  An exception inside [yaml.dump] would
    surface on line 39. *)
Definition run (env : environment) : run_outcome :=
  match env_import_yaml env with
  | Raise e => dies 2 e
  | Return _ =>
      match sys_open (env_files env) input_file with
      | Raise e => dies 6 e
      | Return f =>
          match readlines (env_decode env) f with
          | Raise e => dies 7 e
          | Return lines =>
              match pyyaml_dump false (ruleset_of lines) with
              | Raise e => dies 39 e
              | Return text => print_to (env_stdout env) text
              end
          end
      end
  end.


(** The input is read as [text]. *)
Definition input_text (env : environment) (text : str) : Prop :=
  exists f raw, sys_open (env_files env) input_file = Return f
                /\ raw_read f = Return raw
                /\ env_decode env raw = Return text.


(** ** The text of the document *)

(** The cursor after the dash of a sequence item, and the text of a
    pattern as an item of the sequence: in single quotes when the analysis
    allows it, in double quotes with escapes otherwise, folded at column
    80 onto lines indented by 6. *)
Definition item_cursor : cursor :=
  {| column := 5; whitespace := false; indention := true;
     open_ended := false |}.

Definition write_quoted (p : str) (indent : option nat) : wr :=
  if an_allow_single_quoted (analyze_scalar p)
  then write_single_quoted p true indent
  else write_double_quoted p true indent.

Definition pattern_text (p : str) : str :=
  fst (write_quoted p (Some 6%nat) item_cursor).

(** A character that single quotes take as it is, wherever it stands:
    printable ASCII other than the space and the apostrophe. *)
Definition quotable (c : char) : bool :=
  (33 <=? c) && (c <=? 126) && negb (c =? 39).

Definition sequence_text (patterns : list str) : str :=
  match patterns with
  | [] => u " []"
  | _ :: _ => flat_map (fun p => LF :: u "    -" ++ pattern_text p) patterns
  end.

(** The text of [yaml.dump(ruleset, sort_keys=False)]. *)
Definition document_text (patterns : list str) : str :=
  u "name: Block Forbidden File Types" ++ [LF]
  ++ u "target: push" ++ [LF]
  ++ u "enforcement: active" ++ [LF]
  ++ u "conditions:" ++ [LF]
  ++ u "  file_paths:" ++ [LF]
  ++ u "    included: &id001" ++ sequence_text patterns ++ [LF]
  ++ u "  branches:" ++ [LF]
  ++ u "    includes:" ++ [LF]
  ++ u "    - '*'" ++ [LF]
  ++ u "rules:" ++ [LF]
  ++ u "- type: file_path_restriction" ++ [LF]
  ++ u "  parameters:" ++ [LF]
  ++ u "    restricted_file_patterns: *id001" ++ [LF].

(** The text of [yaml.dump(ruleset, sort_keys=True)], the default of
    [yaml.dump], for comparison: the keys of every mapping in sorted
    order. *)
Definition sorted_document_text (patterns : list str) : str :=
  u "conditions:" ++ [LF]
  ++ u "  branches:" ++ [LF]
  ++ u "    includes:" ++ [LF]
  ++ u "    - '*'" ++ [LF]
  ++ u "  file_paths:" ++ [LF]
  ++ u "    included: &id001" ++ sequence_text patterns ++ [LF]
  ++ u "enforcement: active" ++ [LF]
  ++ u "name: Block Forbidden File Types" ++ [LF]
  ++ u "rules:" ++ [LF]
  ++ u "- parameters:" ++ [LF]
  ++ u "    restricted_file_patterns: *id001" ++ [LF]
  ++ u "  type: file_path_restriction" ++ [LF]
  ++ u "target: push" ++ [LF].

(** ** The words of the specification *)

(** "After trimming, it is empty, or its first character is [#]". *)
Definition blank_or_comment (line : str) : Prop :=
  strip line = [] \/ exists rest, strip line = HASH :: rest.

Definition is_blank_or_comment (line : str) : bool :=
  match strip line with
  | [] => true
  | c :: _ => c =? HASH
  end.

(** A retained line, and the pattern the specification gives it:
    ["*." + trimmed_line]. *)
Definition retained (line : str) : bool := negb (is_blank_or_comment line).

Definition pattern_of_line (line : str) : str := u "*." ++ strip line.

(** ** The document and its events, written out; inputs and worlds of
    the examples *)

(** What one turn of the loop adds to [patterns]. *)
Definition contribution (line : str) : list str :=
  if is_blank_or_comment line then [] else [pattern_of_line line].

(** [ruleset] written out: the fixed shape, the list object of line 9
    (the first object made) at both places. *)
Definition document (patterns : list str) : pyobj :=
  let shared := PyList 0 (map PyStr patterns) in
  PyDict 8
    [(u "name", PyStr (u "Block Forbidden File Types"));
     (u "target", PyStr (u "push"));
     (u "enforcement", PyStr (u "active"));
     (u "conditions",
       PyDict 4
         [(u "file_paths", PyDict 1 [(u "included", shared)]);
          (u "branches",
            PyDict 3 [(u "includes", PyList 2 [PyStr (u "*")])])]);
     (u "rules",
       PyList 7
         [PyDict 6
            [(u "type", PyStr (u "file_path_restriction"));
             (u "parameters",
               PyDict 5 [(u "restricted_file_patterns", shared)])]])].

(** The input of the first scenario of the specification. *)
Definition scenario_text : str :=
  u "# images" ++ [LF] ++ u "exe" ++ [LF] ++ u "bat" ++ [LF] ++ [LF]
    ++ u "tar.gz" ++ [LF].

Definition scalar (value : str) : event := ScalarEvent None tag_str value.

(** The event stream of the document, written out: every mapping gives its
    keys in the order the script wrote them; the list of patterns gets the
    anchor [id001] where it comes first and is an alias where it comes
    again. *)
Definition document_events (patterns : list str) : list event :=
  [StreamStartEvent; DocumentStartEvent;
   MappingStartEvent None tag_map false;
   scalar (u "name"); scalar (u "Block Forbidden File Types");
   scalar (u "target"); scalar (u "push");
   scalar (u "enforcement"); scalar (u "active");
   scalar (u "conditions");
   MappingStartEvent None tag_map false;
   scalar (u "file_paths");
   MappingStartEvent None tag_map false;
   scalar (u "included");
   SequenceStartEvent (Some (u "id001")) tag_seq false]
  ++ map scalar patterns
  ++ [SequenceEndEvent;
      MappingEndEvent;
      scalar (u "branches");
      MappingStartEvent None tag_map false;
      scalar (u "includes");
      SequenceStartEvent None tag_seq false;
      scalar (u "*");
      SequenceEndEvent;
      MappingEndEvent;
      MappingEndEvent;
      scalar (u "rules");
      SequenceStartEvent None tag_seq false;
      MappingStartEvent None tag_map false;
      scalar (u "type"); scalar (u "file_path_restriction");
      scalar (u "parameters");
      MappingStartEvent None tag_map false;
      scalar (u "restricted_file_patterns");
      AliasEvent (Some (u "id001"));
      MappingEndEvent;
      MappingEndEvent;
      SequenceEndEvent;
      MappingEndEvent;
      DocumentEndEvent; StreamEndEvent].

(** Instances for closed examples: the ISO-8859-1 codec, in which a byte is
    the code point of its value; an emitter that writes one line per event
    in the notation of the YAML test suite; a world without the file and
    worlds in which the file has given bytes. *)
Definition latin1_decode (raw : list Byte.byte) : result str :=
  Return (map Byte.to_N raw).

Definition latin1_encode (s : str) : list Byte.byte :=
  map (fun c => match Byte.of_N c with
                | Some b => b
                | None => Byte.x3f
                end) s.

Definition anchor_notation (prefix : str) (anchor : option str) : str :=
  match anchor with
  | Some a => SPACE :: prefix ++ a
  | None => []
  end.

Definition event_notation (e : event) : str :=
  match e with
  | StreamStartEvent => u "+STR"
  | StreamEndEvent => u "-STR"
  | DocumentStartEvent => u "+DOC"
  | DocumentEndEvent => u "-DOC"
  | AliasEvent a => u "=ALI" ++ anchor_notation (u "*") a
  | ScalarEvent a _ v => u "=VAL" ++ anchor_notation (u "&") a ++ u " :" ++ v
  | SequenceStartEvent a _ _ => u "+SEQ" ++ anchor_notation (u "&") a
  | SequenceEndEvent => u "-SEQ"
  | MappingStartEvent a _ _ => u "+MAP" ++ anchor_notation (u "&") a
  | MappingEndEvent => u "-MAP"
  end ++ [LF].

Definition notation_emitter (events : list event) : str :=
  flat_map event_notation events.

Definition enoent (path : str) : exception :=
  OSError 2 (u "No such file or directory") path.


Definition world_with_file (raw : list Byte.byte) : world :=
  {| sys_open := fun path =>
       if str_eqb path input_file then Return {| raw_read := Return raw |}
       else Raise (enoent path) |}.



(** The scenario with CR LF line ends and blanks around the tokens, against
    the scenario as it is. *)
Definition scenario_text_crlf : str :=
  u "# images" ++ [CR; LF] ++ u "  exe" ++ [CR; LF] ++ u "bat " ++ [CR; LF]
    ++ [CR; LF] ++ [9] ++ u "tar.gz" ++ [CR; LF].

(** ** Line-end conventions and the grammar of event streams *)





(** The same objects under other identities. *)
Fixpoint rename_ids (f : objid -> objid) (o : pyobj) : pyobj :=
  match o with
  | PyStr s => PyStr s
  | PyList id items => PyList (f id) (map (rename_ids f) items)
  | PyDict id items =>
      PyDict (f id)
             (map (fun kv : str * pyobj =>
                     let (k, v) := kv in (k, rename_ids f v)) items)
  end.


(** A text with LF line ends rewritten with CR LF, and with CR, line
    ends. *)
Definition to_crlf (text : str) : str :=
  flat_map (fun c => if c =? LF then [CR; LF] else [c]) text.

Definition to_cr (text : str) : str :=
  map (fun c => if c =? LF then CR else c) text.



(** The shape of a line that [readlines] returns: a body without LF, then
    LF; or, for a last line that has no line end, a body that is not
    empty. *)
Definition line_shape (l : str) : Prop :=
  exists body, ~ In LF body /\ (l = body ++ [LF] \/ (l = body /\ body <> [])).

(** The events of the document before and after the patterns,
    [document_events patterns] being [header_events ++ map scalar patterns
    ++ footer_events], and the emitter between two items of the sequence
    of patterns: [col] is the column the last scalar ended in, [first]
    tells that no item is written yet. *)
Definition header_events : list event :=
  [StreamStartEvent; DocumentStartEvent;
   MappingStartEvent None tag_map false;
   scalar (u "name"); scalar (u "Block Forbidden File Types");
   scalar (u "target"); scalar (u "push");
   scalar (u "enforcement"); scalar (u "active");
   scalar (u "conditions");
   MappingStartEvent None tag_map false;
   scalar (u "file_paths");
   MappingStartEvent None tag_map false;
   scalar (u "included");
   SequenceStartEvent (Some (u "id001")) tag_seq false].

Definition footer_events : list event :=
  [SequenceEndEvent;
   MappingEndEvent;
   scalar (u "branches");
   MappingStartEvent None tag_map false;
   scalar (u "includes");
   SequenceStartEvent None tag_seq false;
   scalar (u "*");
   SequenceEndEvent;
   MappingEndEvent;
   MappingEndEvent;
   scalar (u "rules");
   SequenceStartEvent None tag_seq false;
   MappingStartEvent None tag_map false;
   scalar (u "type"); scalar (u "file_path_restriction");
   scalar (u "parameters");
   MappingStartEvent None tag_map false;
   scalar (u "restricted_file_patterns");
   AliasEvent (Some (u "id001"));
   MappingEndEvent;
   MappingEndEvent;
   SequenceEndEvent;
   MappingEndEvent;
   DocumentEndEvent; StreamEndEvent].

Definition header_text : str :=
  u "name: Block Forbidden File Types" ++ [LF]
  ++ u "target: push" ++ [LF]
  ++ u "enforcement: active" ++ [LF]
  ++ u "conditions:" ++ [LF]
  ++ u "  file_paths:" ++ [LF]
  ++ u "    included: &id001".

Definition footer_text : str :=
  [LF]
  ++ u "  branches:" ++ [LF]
  ++ u "    includes:" ++ [LF]
  ++ u "    - '*'" ++ [LF]
  ++ u "rules:" ++ [LF]
  ++ u "- type: file_path_restriction" ++ [LF]
  ++ u "  parameters:" ++ [LF]
  ++ u "    restricted_file_patterns: *id001" ++ [LF].

Definition item_emitter (first : bool) (col : nat) : emitter :=
  {| states := [expect_block_mapping_key; expect_block_mapping_key;
                expect_block_mapping_key; expect_document_end];
     state := if first then expect_first_block_sequence_item
              else expect_block_sequence_item;
     indents := [Some 4%nat; Some 2%nat; Some 0%nat; None];
     indent := Some 4%nat;
     flow_level := 0;
     root_context := false;
     sequence_context := negb first;
     mapping_context := first;
     simple_key_context := false;
     cur := {| column := col; whitespace := false; indention := false;
               open_ended := false |} |}.

(** A scalar that starts with a star, as every pattern does. *)
Definition starred (p : str) : Prop := exists rest, p = 42 :: rest.

(** The same for [sort_keys=True]. *)
Definition sorted_header_events : list event :=
  [StreamStartEvent; DocumentStartEvent;
   MappingStartEvent None tag_map false;
   scalar (u "conditions");
   MappingStartEvent None tag_map false;
   scalar (u "branches");
   MappingStartEvent None tag_map false;
   scalar (u "includes");
   SequenceStartEvent None tag_seq false;
   scalar (u "*");
   SequenceEndEvent;
   MappingEndEvent;
   scalar (u "file_paths");
   MappingStartEvent None tag_map false;
   scalar (u "included");
   SequenceStartEvent (Some (u "id001")) tag_seq false].

Definition sorted_footer_events : list event :=
  [SequenceEndEvent;
   MappingEndEvent;
   MappingEndEvent;
   scalar (u "enforcement"); scalar (u "active");
   scalar (u "name"); scalar (u "Block Forbidden File Types");
   scalar (u "rules");
   SequenceStartEvent None tag_seq false;
   MappingStartEvent None tag_map false;
   scalar (u "parameters");
   MappingStartEvent None tag_map false;
   scalar (u "restricted_file_patterns");
   AliasEvent (Some (u "id001"));
   MappingEndEvent;
   scalar (u "type"); scalar (u "file_path_restriction");
   MappingEndEvent;
   SequenceEndEvent;
   scalar (u "target"); scalar (u "push");
   MappingEndEvent;
   DocumentEndEvent; StreamEndEvent].

Definition sorted_header_text : str :=
  u "conditions:" ++ [LF]
  ++ u "  branches:" ++ [LF]
  ++ u "    includes:" ++ [LF]
  ++ u "    - '*'" ++ [LF]
  ++ u "  file_paths:" ++ [LF]
  ++ u "    included: &id001".

Definition sorted_footer_text : str :=
  [LF]
  ++ u "enforcement: active" ++ [LF]
  ++ u "name: Block Forbidden File Types" ++ [LF]
  ++ u "rules:" ++ [LF]
  ++ u "- parameters:" ++ [LF]
  ++ u "    restricted_file_patterns: *id001" ++ [LF]
  ++ u "  type: file_path_restriction" ++ [LF]
  ++ u "target: push" ++ [LF].

(** Environments of the examples: [yaml] can be imported, the input file
    holds [raw], text mode decodes with [decode], and standard output
    answers [out] to whatever is written; an environment in which [yaml]
    is not installed; the error of a full device; and a file whose one
    line, [cafe] with an acute accent and a line end, is encoded in
    UTF-8. *)
Definition environment_with (decode : list Byte.byte -> result str)
           (raw : list Byte.byte) (out : stdout_result) : environment :=
  {| env_import_yaml := Return tt;
     env_files := world_with_file raw;
     env_decode := decode;
     env_stdout := fun _ => out |}.




(** PyYAML's emitter as the [emit] of [main], which has no place for an
    exception of the emitter. *)
Definition pyyaml_emitter (events : list event) : str :=
  match emit_stream events with
  | Return text => text
  | Raise _ => []
  end.

(** Identities in the reverse order of creation. *)
Definition reversed_ids (id : objid) : objid := (8 - id)%nat.



(** * Properties *)

(** ** The definitions on small inputs *)

Example strip_example :
  strip ([9] ++ u " tar.gz " ++ [CR; LF]) = u "tar.gz"
  /\ strip (u "  # exe ") = u "# exe"
  /\ strip [SPACE; 160; 8195; LF] = [].
Proof. repeat split. Qed.

(** Only LF, CR LF and CR end a line; other breaks of Unicode stay inside
    it. *)
Example lines_of_text_example :
  lines_of_text (u "# images" ++ [CR; LF] ++ u "  exe" ++ [LF; LF]
                   ++ u "x" ++ [CR] ++ u "y" ++ [11] ++ u "z" ++ [133]
                   ++ u "w")
  = [u "# images" ++ [LF]; u "  exe" ++ [LF]; [LF]; u "x" ++ [LF];
     u "y" ++ [11] ++ u "z" ++ [133] ++ u "w"]
  /\ lines_of_text (u "a" ++ [CR; CR; LF] ++ u "b" ++ [LF; CR])
     = [u "a" ++ [LF]; [LF]; u "b" ++ [LF]; [LF]]
  /\ lines_of_text [] = [].
Proof. repeat split. Qed.

Example patterns_of_example :
  patterns_of [u "# images" ++ [LF]; u "exe" ++ [LF]; [LF];
               u " nii.gz" ++ [LF]; u "exe"]
  = [u "*.exe"; u "*.nii.gz"; u "*.exe"].
Proof. reflexivity. Qed.

Example generate_anchor_example :
  generate_anchor 1 = u "id001" /\ generate_anchor 1234 = u "id1234".
Proof. split; reflexivity. Qed.

Example yaml_events_example :
  yaml_events false (PyDict 1 [(u "b", PyList 0 []); (u "a", PyList 0 [])])
  = [StreamStartEvent; DocumentStartEvent;
     MappingStartEvent None tag_map false;
     scalar (u "b"); SequenceStartEvent (Some (u "id001")) tag_seq false;
     SequenceEndEvent;
     scalar (u "a"); AliasEvent (Some (u "id001"));
     MappingEndEvent; DocumentEndEvent; StreamEndEvent]
  /\ yaml_events true (PyDict 1 [(u "b", PyList 0 []); (u "a", PyList 0 [])])
     = [StreamStartEvent; DocumentStartEvent;
        MappingStartEvent None tag_map false;
        scalar (u "a"); SequenceStartEvent (Some (u "id001")) tag_seq false;
        SequenceEndEvent;
        scalar (u "b"); AliasEvent (Some (u "id001"));
        MappingEndEvent; DocumentEndEvent; StreamEndEvent].
Proof. split; reflexivity. Qed.

(** ** The filter loop *)

Lemma blank_or_comment_iff (line : str) :
  blank_or_comment line <-> is_blank_or_comment line = true.
Proof.
  unfold blank_or_comment, is_blank_or_comment.
  destruct (strip line) as [|c rest]; split; intro H.
  - reflexivity.
  - now left.
  - destruct H as [H|[r H]]; [discriminate|].
    injection H as -> _. reflexivity.
  - right. exists rest. apply N.eqb_eq in H. now subst.
Qed.

(** The test of line 15 is the test of the specification. *)
Lemma skip_test (line : str) :
  negb (truthy (strip line)) || startswith (strip line) (u "#")
  = is_blank_or_comment line.
Proof.
  unfold is_blank_or_comment.
  destruct (strip line) as [|c rest]; [reflexivity|].
  cbn. now rewrite andb_true_r.
Qed.

Lemma for_lines_acc (lines : list str) :
  forall acc, for_lines lines acc = acc ++ flat_map contribution lines.
Proof.
  induction lines as [|line rest IH]; intro acc; cbn [for_lines flat_map].
  - now rewrite app_nil_r.
  - rewrite skip_test. unfold contribution.
    destruct (is_blank_or_comment line).
    + apply IH.
    + rewrite IH, <- app_assoc. reflexivity.
Qed.

Lemma patterns_of_flat_map (lines : list str) :
  patterns_of lines = flat_map contribution lines.
Proof. unfold patterns_of. now rewrite for_lines_acc. Qed.

Lemma patterns_of_app (l1 l2 : list str) :
  patterns_of (l1 ++ l2) = patterns_of l1 ++ patterns_of l2.
Proof. rewrite !patterns_of_flat_map. apply flat_map_app. Qed.

Lemma patterns_of_one (line : str) :
  patterns_of [line] = contribution line.
Proof. rewrite patterns_of_flat_map. cbn. apply app_nil_r. Qed.

Lemma patterns_of_filter_map (lines : list str) :
  patterns_of lines = map pattern_of_line (filter retained lines).
Proof.
  rewrite patterns_of_flat_map.
  induction lines as [|line rest IH]; [reflexivity|].
  cbn [flat_map filter]. unfold contribution at 1, retained at 1.
  destruct (is_blank_or_comment line); cbn; now rewrite IH.
Qed.

Lemma contribution_nil_iff (line : str) :
  contribution line = [] <-> blank_or_comment line.
Proof.
  rewrite blank_or_comment_iff. unfold contribution.
  destruct (is_blank_or_comment line); split; intro H;
    try reflexivity; discriminate.
Qed.

(** C1. A line is left out of the patterns exactly when, once trimmed, it
    is empty or starts with [#].  The patterns of an input are those of the
    lines before a line, then what the line itself gives, then those of the
    lines after it; the line gives nothing if and only if it is blank or a
    comment, and taking the line away leaves the patterns unchanged if and
    only if it is blank or a comment. *)
Theorem C1_excluded_iff_blank_or_comment :
  forall (before after : list str) (line : str),
    patterns_of (before ++ line :: after)
    = patterns_of before ++ patterns_of [line] ++ patterns_of after
    /\ (patterns_of [line] = [] <-> blank_or_comment line)
    /\ (patterns_of (before ++ line :: after) = patterns_of (before ++ after)
        <-> blank_or_comment line).
Proof.
  intros before after line.
  assert (Hsplit : patterns_of (before ++ line :: after)
                   = patterns_of before ++ patterns_of [line]
                       ++ patterns_of after).
  { change (line :: after) with ([line] ++ after).
    now rewrite !patterns_of_app. }
  split; [exact Hsplit|]. split.
  - rewrite patterns_of_one. apply contribution_nil_iff.
  - rewrite Hsplit, patterns_of_app, patterns_of_one.
    rewrite <- contribution_nil_iff. split; intro H.
    + apply app_inv_head in H.
      apply (f_equal (@List.length str)) in H.
      rewrite length_app in H.
      destruct (contribution line); [reflexivity|cbn in H; lia].
    + now rewrite H.
Qed.

(** C2. The patterns are the retained lines, in their order, each turned
    into ["*." + trimmed_line]: as many patterns as retained lines, the
    i-th pattern from the i-th retained line, and a token occurs among the
    retained lines as often as its pattern among the patterns, so a token
    given twice gives its pattern twice. *)
Theorem C2_patterns_follow_retained_lines :
  forall lines : list str,
    patterns_of lines = map pattern_of_line (filter retained lines)
    /\ (forall line, retained line = true <-> ~ blank_or_comment line)
    /\ List.length (patterns_of lines) = List.length (filter retained lines)
    /\ (forall i : nat,
          nth_error (patterns_of lines) i
          = option_map pattern_of_line (nth_error (filter retained lines) i))
    /\ (forall token : str,
          count_occ str_eq_dec (patterns_of lines) (u "*." ++ token)
          = count_occ str_eq_dec (map strip (filter retained lines)) token)
    /\ patterns_of [u "exe"; u "exe"] = [u "*.exe"; u "*.exe"].
Proof.
  intro lines. rewrite patterns_of_filter_map.
  split; [reflexivity|]. split; [|split; [|split; [|split]]].
  - intro line. unfold retained. rewrite blank_or_comment_iff.
    destruct (is_blank_or_comment line); cbn; split; intro H;
      try discriminate; try reflexivity; try congruence.
  - apply length_map.
  - intro i. apply nth_error_map.
  - intro token.
    change pattern_of_line with (fun l => app (u "*.") (strip l)).
    rewrite <- (map_map strip (app (u "*."))).
    symmetry. apply count_occ_map.
    intros x1 x2. apply app_inv_head.
  - reflexivity.
Qed.

(** C9. A [#] after the first character of the trimmed line starts no
    comment: a line that trims to a first character other than [#],
    whatever follows and a [#] in particular, gives the pattern made of
    ["*."] and the whole trimmed line, at the line's place. *)
Theorem C9_inner_hash_is_part_of_the_token :
  forall (before after : list str) (line : str) (c : char) (mid post : str),
    strip line = c :: mid ++ HASH :: post ->
    c <> HASH ->
    patterns_of (before ++ line :: after)
    = patterns_of before ++ [u "*." ++ c :: mid ++ HASH :: post]
        ++ patterns_of after.
Proof.
  intros before after line c mid post Hstrip Hc.
  change (line :: after) with ([line] ++ after).
  rewrite !patterns_of_app, patterns_of_one.
  unfold contribution, is_blank_or_comment, pattern_of_line.
  rewrite Hstrip.
  apply N.eqb_neq in Hc. now rewrite Hc.
Qed.

(** The line [exe # note] gives the pattern [*.exe # note]. *)
Lemma C9_witness :
  strip (u "exe # note") = 101 :: u "xe " ++ HASH :: u " note"
  /\ 101 <> HASH
  /\ patterns_of ([] ++ u "exe # note" :: [])
     = patterns_of [] ++ [u "*.exe # note"] ++ patterns_of [].
Proof.
  split; [reflexivity|]. split; [discriminate|].
  apply (C9_inner_hash_is_part_of_the_token [] [] (u "exe # note")
           101 (u "xe ") (u " note")).
  - reflexivity.
  - discriminate.
Defined.

(** ** The document *)

Lemma ruleset_of_document (lines : list str) :
  ruleset_of lines = document (patterns_of lines).
Proof. reflexivity. Qed.

Lemma str_items_list (id : objid) (l : list str) :
  str_items (PyList id (map PyStr l)) = Some l.
Proof.
  cbn. induction l as [|s l IH]; [reflexivity|].
  cbn. now rewrite IH.
Qed.

(** C6. For the lines [# images], [exe], [bat], an empty line and
    [tar.gz] the document carries [*.exe], [*.bat], [*.tar.gz] at both
    places, and the constant fields are [name], [target], [enforcement]
    and [conditions.branches.includes] as given. *)
Theorem C6_scenario_document :
  lines_of_text scenario_text
  = [u "# images" ++ [LF]; u "exe" ++ [LF]; u "bat" ++ [LF]; [LF];
     u "tar.gz" ++ [LF]]
  /\ and_then (included (ruleset_of (lines_of_text scenario_text))) str_items
     = Some [u "*.exe"; u "*.bat"; u "*.tar.gz"]
  /\ and_then (restricted_file_patterns
                 (ruleset_of (lines_of_text scenario_text))) str_items
     = Some [u "*.exe"; u "*.bat"; u "*.tar.gz"]
  /\ getitem (ruleset_of (lines_of_text scenario_text)) (u "name")
     = Some (PyStr (u "Block Forbidden File Types"))
  /\ getitem (ruleset_of (lines_of_text scenario_text)) (u "target")
     = Some (PyStr (u "push"))
  /\ getitem (ruleset_of (lines_of_text scenario_text)) (u "enforcement")
     = Some (PyStr (u "active"))
  /\ and_then (branches_includes (ruleset_of (lines_of_text scenario_text)))
              str_items
     = Some [u "*"].
Proof. repeat split. Qed.

(** ** The events of the document *)

Lemma represent_str_items (sort_keys : bool) (l : list str) :
  forall ro,
    represent_sequence_items (map (represent_data sort_keys) (map PyStr l)) ro
    = (map (ScalarNode tag_str) l, ro).
Proof.
  induction l as [|s l IH]; intro ro; [reflexivity|].
  cbn. now rewrite IH.
Qed.

Lemma anchor_scalar_nodes (l : list str) :
  forall st,
    fold_left (fun st item => anchor_node item st)
              (map (ScalarNode tag_str) l) st = st.
Proof. induction l as [|s l IH]; intro st; [reflexivity|apply IH]. Qed.

Lemma serialize_scalar_nodes (st : anchoring) (l : list str) :
  forall done,
    serialize_all (map (serialize_node st) (map (ScalarNode tag_str) l)) done
    = (map scalar l, done).
Proof.
  induction l as [|s l IH]; intro done; [reflexivity|].
  cbn. now rewrite IH.
Qed.

Lemma yaml_events_document (patterns : list str) :
  yaml_events false (document patterns) = document_events patterns.
Proof.
  unfold yaml_events, document.
  cbn -[u]. rewrite represent_str_items. cbn -[u].
  rewrite anchor_scalar_nodes. cbn -[u].
  rewrite serialize_scalar_nodes. cbn -[u].
  unfold document_events. rewrite <- !app_assoc. reflexivity.
Qed.

(** With [sort_keys=True] the stream would open with the key
    [conditions]. *)
Lemma yaml_events_sorted_first_key (patterns : list str) :
  nth_error (yaml_events true (document patterns)) 3
  = Some (scalar (u "conditions")).
Proof.
  unfold yaml_events, document.
  cbn. rewrite represent_str_items. cbn.
  rewrite anchor_scalar_nodes. cbn.
  rewrite serialize_scalar_nodes. reflexivity.
Qed.

(** C3. In the document of every input the sequence at
    [conditions.file_paths.included] and the sequence at
    [rules[0].parameters.restricted_file_patterns] are the same: both are
    the one list object of the script, and it holds the patterns in their
    order.  Serialized, the sequence is written once, under the anchor
    [id001] at the first place, and the second place is an alias of that
    anchor. *)
Theorem C3_both_places_carry_the_same_sequence :
  forall lines : list str,
    included (ruleset_of lines) = restricted_file_patterns (ruleset_of lines)
    /\ included (ruleset_of lines)
       = Some (PyList 0 (map PyStr (patterns_of lines)))
    /\ and_then (included (ruleset_of lines)) str_items
       = Some (patterns_of lines)
    /\ and_then (restricted_file_patterns (ruleset_of lines)) str_items
       = Some (patterns_of lines)
    /\ yaml_events false (ruleset_of lines)
       = document_events (patterns_of lines).
Proof.
  intro lines. rewrite ruleset_of_document.
  change (included (document (patterns_of lines)))
    with (Some (PyList 0 (map PyStr (patterns_of lines)))).
  change (restricted_file_patterns (document (patterns_of lines)))
    with (Some (PyList 0 (map PyStr (patterns_of lines)))).
  cbn [and_then]. rewrite str_items_list, yaml_events_document.
  repeat split.
Qed.

(** ** The run of the process *)

Lemma main_of_read_input decode emit (w : world) :
  main decode emit w
  = match read_input decode w with
    | Return lines =>
        {| exit_status := 0; stdout := output_of emit lines; stderr := None |}
    | Raise e =>
        uncaught (match sys_open w input_file with
                  | Raise _ => 6
                  | Return _ => 7
                  end) e
    end.
Proof.
  unfold main, read_input.
  destruct (sys_open w input_file) as [e|f]; [reflexivity|].
  destruct (readlines decode f); reflexivity.
Qed.




(** ** Trimming and line ends *)

Lemma lstrip_spaces (ws : str) :
  forallb isspace ws = true -> forall s, lstrip (ws ++ s) = lstrip s.
Proof.
  induction ws as [|c ws IH]; intros H s; [reflexivity|].
  cbn in H. apply andb_true_iff in H as [Hc Hws].
  cbn. rewrite Hc. now apply IH.
Qed.

Lemma lstrip_app_cases (s t : str) :
  (forallb isspace s = true /\ lstrip s = [])
  \/ lstrip (s ++ t) = lstrip s ++ t.
Proof.
  induction s as [|c s IH]; [left; now split|].
  cbn. destruct (isspace c); [exact IH|now right].
Qed.

Lemma rstrip_spaces (s ws : str) :
  forallb isspace ws = true -> rstrip (s ++ ws) = rstrip s.
Proof.
  intro H. unfold rstrip. rewrite rev_app_distr.
  rewrite lstrip_spaces; [reflexivity|].
  rewrite forallb_forall in *. intros c Hc. apply H. now apply in_rev.
Qed.

(** Trailing whitespace, the line end in particular, does not survive
    trimming. *)
Lemma strip_trailing_spaces (s ws : str) :
  forallb isspace ws = true -> strip (s ++ ws) = strip s.
Proof.
  intro H. unfold strip.
  destruct (lstrip_app_cases s ws) as [[Hs Hnil]|Happ].
  - rewrite <- (app_nil_r ws), app_assoc, lstrip_spaces, Hnil;
      [reflexivity|].
    rewrite forallb_app. now rewrite Hs, H.
  - rewrite Happ. now apply rstrip_spaces.
Qed.

Lemma contribution_trimmed (l1 l2 : str) :
  strip l1 = strip l2 -> contribution l1 = contribution l2.
Proof.
  unfold contribution, is_blank_or_comment, pattern_of_line.
  now intros ->.
Qed.

Lemma patterns_of_trimmed (lines1 : list str) :
  forall lines2 : list str,
    map strip lines1 = map strip lines2 ->
    patterns_of lines1 = patterns_of lines2.
Proof.
  intros lines2 Hstrip. rewrite !patterns_of_flat_map.
  revert lines2 Hstrip.
  induction lines1 as [|l1 r1 IH]; intros [|l2 r2] Hstrip;
    try discriminate; [reflexivity|].
  cbn in Hstrip. injection Hstrip as Hl Hr.
  cbn [flat_map]. now rewrite (contribution_trimmed l1 l2 Hl), (IH r2 Hr).
Qed.

(** C10. Two inputs whose lines are equal once trimmed give the same
    outcome: the same document and the same standard output.  A line end,
    LF, CR LF or CR, and any other whitespace around a line are trimmed
    away. *)
Theorem C10_output_depends_on_trimmed_lines_only :
  forall decode emit (w1 w2 : world) (lines1 lines2 : list str),
    read_input decode w1 = Return lines1 ->
    read_input decode w2 = Return lines2 ->
    map strip lines1 = map strip lines2 ->
    ruleset_of lines1 = ruleset_of lines2
    /\ main decode emit w1 = main decode emit w2
    /\ (forall body : str,
          strip (body ++ [CR; LF]) = strip body
          /\ strip (body ++ [LF]) = strip body
          /\ strip (body ++ [CR]) = strip body).
Proof.
  intros decode emit w1 w2 lines1 lines2 H1 H2 Hstrip.
  pose proof (patterns_of_trimmed lines1 lines2 Hstrip) as Hpat.
  assert (Hdoc : ruleset_of lines1 = ruleset_of lines2).
  { now rewrite !ruleset_of_document, Hpat. }
  split; [exact Hdoc|]. split.
  - rewrite !main_of_read_input, H1, H2. unfold output_of. now rewrite Hdoc.
  - intro body. repeat split; apply strip_trailing_spaces; reflexivity.
Qed.

Lemma C10_witness :
  map strip (lines_of_text scenario_text_crlf)
  = map strip (lines_of_text scenario_text)
  /\ main latin1_decode notation_emitter
          (world_with_file (latin1_encode scenario_text_crlf))
     = main latin1_decode notation_emitter
            (world_with_file (latin1_encode scenario_text)).
Proof.
  split; [reflexivity|].
  apply (C10_output_depends_on_trimmed_lines_only
           latin1_decode notation_emitter
           (world_with_file (latin1_encode scenario_text_crlf))
           (world_with_file (latin1_encode scenario_text))
           (lines_of_text scenario_text_crlf)
           (lines_of_text scenario_text)); reflexivity.
Defined.

(** * Further properties of the code *)

(** ** [str.strip] (line 12) *)

Lemma lstrip_decompose (s : str) :
  exists ws, s = ws ++ lstrip s /\ forallb isspace ws = true.
Proof.
  induction s as [|c r IH]; [now exists []|].
  cbn. destruct (isspace c) eqn:Hc.
  - destruct IH as (ws & Heq & Hws). exists (c :: ws). split.
    + cbn. now f_equal.
    + cbn. now rewrite Hc.
  - now exists [].
Qed.

Lemma lstrip_head (s : str) (c : char) (r : str) :
  lstrip s = c :: r -> isspace c = false.
Proof.
  induction s as [|d s IH]; [discriminate|].
  cbn. destruct (isspace d) eqn:Hd; [exact IH|].
  intro H. injection H as <- _. exact Hd.
Qed.

Lemma lstrip_fixed (c : char) (r : str) :
  isspace c = false -> lstrip (c :: r) = c :: r.
Proof. intro H. cbn. now rewrite H. Qed.

Lemma rstrip_decompose (s : str) :
  exists ws, s = rstrip s ++ ws /\ forallb isspace ws = true.
Proof.
  destruct (lstrip_decompose (rev s)) as (ws & Heq & Hws).
  exists (rev ws). split.
  - unfold rstrip. rewrite <- rev_app_distr, <- Heq. now rewrite rev_involutive.
  - rewrite forallb_forall in *. intros c Hc. apply Hws. now apply in_rev.
Qed.

Lemma rstrip_last (s r : str) (c : char) :
  rstrip s = r ++ [c] -> isspace c = false.
Proof.
  unfold rstrip. intro H.
  apply (f_equal (@rev char)) in H.
  rewrite rev_involutive, rev_app_distr in H. cbn in H.
  exact (lstrip_head _ _ _ H).
Qed.

Lemma rstrip_fixed (r : str) (c : char) :
  isspace c = false -> rstrip (r ++ [c]) = r ++ [c].
Proof.
  intro H. unfold rstrip. rewrite rev_app_distr. cbn [rev app].
  rewrite lstrip_fixed by exact H.
  change (c :: rev r) with ([c] ++ rev r).
  now rewrite rev_app_distr, rev_involutive.
Qed.

(** Trimming on the right keeps a first character that is no
    whitespace. *)
Lemma rstrip_head (c : char) (r : str) :
  isspace c = false -> exists r', rstrip (c :: r) = c :: r'.
Proof.
  intro Hc. destruct (rstrip_decompose (c :: r)) as (ws & Heq & Hws).
  destruct (rstrip (c :: r)) as [|d r'].
  - cbn in Heq. subst ws. cbn in Hws. now rewrite Hc in Hws.
  - injection Heq as <- _. now exists r'.
Qed.

Lemma strip_head (s : str) (c : char) (r : str) :
  strip s = c :: r -> isspace c = false.
Proof.
  unfold strip. intro H.
  destruct (lstrip s) as [|d t] eqn:El.
  - discriminate H.
  - pose proof (lstrip_head _ _ _ El) as Hd.
    destruct (rstrip_head d t Hd) as (r' & Hr).
    rewrite Hr in H. injection H as <- _. exact Hd.
Qed.

Lemma strip_last (s r : str) (c : char) :
  strip s = r ++ [c] -> isspace c = false.
Proof. unfold strip. apply rstrip_last. Qed.

Lemma strip_decompose (s : str) :
  exists ws1 ws2,
    s = ws1 ++ strip s ++ ws2
    /\ forallb isspace ws1 = true /\ forallb isspace ws2 = true.
Proof.
  destruct (lstrip_decompose s) as (ws1 & H1 & Hws1).
  destruct (rstrip_decompose (lstrip s)) as (ws2 & H2 & Hws2).
  exists ws1, ws2. unfold strip. now rewrite <- H2.
Qed.

Lemma strip_fixed (t : str) :
  (forall c r, t = c :: r -> isspace c = false) ->
  (forall r c, t = r ++ [c] -> isspace c = false) ->
  strip t = t.
Proof.
  intros Hhead Hlast. unfold strip.
  destruct t as [|c r]; [reflexivity|].
  rewrite lstrip_fixed by exact (Hhead c r eq_refl).
  destruct (exists_last (l := c :: r)) as (r0 & d & Heq); [discriminate|].
  rewrite Heq. apply rstrip_fixed. exact (Hlast r0 d Heq).
Qed.

(** X1. [strip] removes whitespace at both ends and nothing else: the
    string is whitespace, then its trimmed form, then whitespace; the
    trimmed form neither starts nor ends with whitespace; and trimming
    again changes nothing. *)
Theorem X1_strip_specification :
  forall s : str,
    (exists ws1 ws2,
        s = ws1 ++ strip s ++ ws2
        /\ forallb isspace ws1 = true /\ forallb isspace ws2 = true)
    /\ (forall c r, strip s = c :: r -> isspace c = false)
    /\ (forall r c, strip s = r ++ [c] -> isspace c = false)
    /\ strip (strip s) = strip s.
Proof.
  intro s. split; [apply strip_decompose|].
  split; [apply strip_head|]. split; [apply strip_last|].
  apply strip_fixed; [apply strip_head|apply strip_last].
Qed.

(** ** The patterns (lines 11-20) *)

Lemma strip_idempotent (s : str) : strip (strip s) = strip s.
Proof. apply strip_fixed; [apply strip_head|apply strip_last]. Qed.

Lemma retained_strip (line : str) : retained (strip line) = retained line.
Proof.
  unfold retained, is_blank_or_comment. now rewrite strip_idempotent.
Qed.

Lemma retained_inv (line : str) :
  retained line = true ->
  exists c rest, strip line = c :: rest /\ c <> HASH.
Proof.
  unfold retained, is_blank_or_comment.
  destruct (strip line) as [|c rest]; [discriminate|].
  intro H. exists c, rest. split; [reflexivity|].
  apply N.eqb_neq. now destruct (c =? HASH).
Qed.

(** X2. Every pattern of the output is ["*."] followed by a token that is
    not empty, does not start with [#], and neither starts nor ends with
    whitespace; the token is the trimmed form of a line of the input. *)
Theorem X2_pattern_shape :
  forall (lines : list str) (p : str),
    In p (patterns_of lines) ->
    exists (c : char) (rest : str),
      p = u "*." ++ c :: rest
      /\ c <> HASH
      /\ isspace c = false
      /\ (forall r d, p = r ++ [d] -> isspace d = false)
      /\ exists line, In line lines /\ strip line = c :: rest.
Proof.
  intros lines p Hin. rewrite patterns_of_filter_map in Hin.
  apply in_map_iff in Hin as (line & <- & Hline).
  apply filter_In in Hline as (Hline & Hret).
  destruct (retained_inv line Hret) as (c & rest & Hstrip & Hc).
  exists c, rest. unfold pattern_of_line. rewrite Hstrip.
  split; [reflexivity|]. split; [exact Hc|].
  split; [exact (strip_head line c rest Hstrip)|]. split.
  - intros r d Heq.
    destruct (exists_last (l := c :: rest)) as (r0 & d0 & H0);
      [discriminate|].
    rewrite H0, app_assoc in Heq. apply app_inj_tail in Heq as (_ & <-).
    apply (strip_last line r0 d0). now rewrite Hstrip.
  - now exists line.
Qed.

Lemma X2_witness :
  In (u "*.tar.gz") (patterns_of [u "# c"; u "  tar.gz " ++ [LF]])
  /\ exists (c : char) (rest : str),
       u "*.tar.gz" = u "*." ++ c :: rest
       /\ c <> HASH
       /\ isspace c = false
       /\ (forall r d, u "*.tar.gz" = r ++ [d] -> isspace d = false)
       /\ exists line,
            In line [u "# c"; u "  tar.gz " ++ [LF]]
            /\ strip line = c :: rest.
Proof.
  assert (Hin : In (u "*.tar.gz")
                   (patterns_of [u "# c"; u "  tar.gz " ++ [LF]])).
  { left. reflexivity. }
  split; [exact Hin|].
  exact (X2_pattern_shape [u "# c"; u "  tar.gz " ++ [LF]] (u "*.tar.gz")
           Hin).
Defined.

Lemma lstrip_all_space (ws : str) :
  forallb isspace ws = true -> lstrip ws = [].
Proof.
  intro H. rewrite <- (app_nil_r ws). now rewrite lstrip_spaces.
Qed.

(** X3. A line of whitespace only is dropped, and so is a comment that
    is indented: whitespace, then [#], then anything. *)
Theorem X3_whitespace_and_indented_comments_are_dropped :
  forall (ws rest : str),
    forallb isspace ws = true ->
    patterns_of [ws] = []
    /\ patterns_of [ws ++ HASH :: rest] = []
    /\ (forall before after : list str,
          patterns_of (before ++ (ws ++ HASH :: rest) :: after)
          = patterns_of (before ++ after)).
Proof.
  intros ws rest Hws.
  assert (Hblank : blank_or_comment ws).
  { left. unfold strip. now rewrite lstrip_all_space. }
  assert (Hcomment : blank_or_comment (ws ++ HASH :: rest)).
  { right. unfold strip. rewrite lstrip_spaces by exact Hws.
    rewrite lstrip_fixed by reflexivity.
    destruct (rstrip_head HASH rest eq_refl) as (r' & Hr).
    now exists r'. }
  split; [|split].
  - rewrite patterns_of_one. now apply contribution_nil_iff.
  - rewrite patterns_of_one. now apply contribution_nil_iff.
  - intros before after.
    change ((ws ++ HASH :: rest) :: after)
      with ([ws ++ HASH :: rest] ++ after).
    rewrite !patterns_of_app, patterns_of_one.
    apply contribution_nil_iff in Hcomment. now rewrite Hcomment.
Qed.

Lemma X3_witness :
  forallb isspace [SPACE; 9; 160] = true
  /\ patterns_of [[SPACE; 9; 160] ++ HASH :: u " exe"] = [].
Proof.
  split; [reflexivity|].
  exact (proj1 (proj2 (X3_whitespace_and_indented_comments_are_dropped
                         [SPACE; 9; 160] (u " exe") eq_refl))).
Defined.

(** X4. Cleaning the input beforehand changes nothing: with the blank and
    comment lines taken out, and with every remaining line trimmed, the
    patterns are the same. *)
Theorem X4_cleaned_input_gives_the_same_patterns :
  forall lines : list str,
    patterns_of (filter retained lines) = patterns_of lines
    /\ patterns_of (map strip lines) = patterns_of lines
    /\ patterns_of (map strip (filter retained lines)) = patterns_of lines.
Proof.
  intro lines.
  assert (Hstrip : forall l : list str,
             patterns_of (map strip l) = patterns_of l).
  { intro l. apply patterns_of_trimmed.
    rewrite map_map. apply map_ext. intro a. apply strip_idempotent. }
  split; [|split].
  - rewrite !patterns_of_filter_map. f_equal.
    induction lines as [|l r IH]; [reflexivity|].
    cbn [filter]. destruct (retained l) eqn:E; [|exact IH].
    cbn [filter]. rewrite E. now f_equal.
  - apply Hstrip.
  - rewrite Hstrip, !patterns_of_filter_map. f_equal.
    induction lines as [|l r IH]; [reflexivity|].
    cbn [filter]. destruct (retained l) eqn:E; [|exact IH].
    cbn [filter]. rewrite E. now f_equal.
Qed.

(** X5. The tokens can be read back from the patterns: without their
    first two characters the patterns are the trimmed retained lines, in
    order. *)
Theorem X5_tokens_back_from_patterns :
  forall lines : list str,
    map (skipn 2) (patterns_of lines) = map strip (filter retained lines).
Proof.
  intro lines. rewrite patterns_of_filter_map, map_map.
  apply map_ext. intro line. reflexivity.
Qed.

(** ** Reading the lines (line 7) *)

Lemma universal_newlines_length_ind (P : str -> Prop) :
  (forall s, (forall t, (List.length t < List.length s)%nat -> P t) -> P s) ->
  forall s, P s.
Proof.
  intros H s.
  assert (Hn : forall n t, (List.length t < n)%nat -> P t).
  { induction n as [|n IH]; intros t Ht; [lia|].
    apply H. intros t' Ht'. apply IH. lia. }
  apply (Hn (S (List.length s))). lia.
Qed.

Lemma universal_newlines_no_cr (s : str) : ~ In CR (universal_newlines s).
Proof.
  induction s as [s IH] using universal_newlines_length_ind.
  destruct s as [|c r]; [intros []|].
  cbn [universal_newlines]. destruct (c =? CR) eqn:Hc.
  - destruct r as [|d r'].
    + intros [H|[]]. discriminate H.
    + destruct (d =? LF).
      * intros [H|H]; [discriminate H|]. apply (IH r'); [cbn; lia|exact H].
      * intros [H|H]; [discriminate H|].
        apply (IH (d :: r')); [cbn; lia|exact H].
  - intros [H|H].
    + apply N.eqb_neq in Hc. now apply Hc.
    + apply (IH r); [cbn; lia|exact H].
Qed.

Lemma universal_newlines_without_cr (s : str) :
  ~ In CR s -> universal_newlines s = s.
Proof.
  induction s as [|c r IH]; intro H; [reflexivity|].
  cbn [universal_newlines]. destruct (c =? CR) eqn:Hc.
  - apply N.eqb_eq in Hc. elim H. now left.
  - f_equal. apply IH. intro Hr. apply H. now right.
Qed.

Lemma split_keepends_concat (s : str) :
  List.concat (split_keepends s) = s.
Proof.
  induction s as [|c r IH]; [reflexivity|].
  cbn [split_keepends]. destruct (c =? LF).
  - cbn. now rewrite IH.
  - destruct (split_keepends r) as [|l ls].
    + cbn in IH. subst r. reflexivity.
    + cbn in *. now rewrite IH.
Qed.

Lemma split_keepends_shape (s : str) : Forall line_shape (split_keepends s).
Proof.
  induction s as [|c r IH]; [constructor|].
  cbn [split_keepends]. destruct (c =? LF) eqn:Hc.
  - apply N.eqb_eq in Hc. subst c. constructor; [|exact IH].
    exists []. split; [intros []|now left].
  - apply N.eqb_neq in Hc.
    destruct (split_keepends r) as [|l ls].
    + constructor; [|constructor].
      exists [c]. split; [|right; split; [reflexivity|discriminate]].
      intros [H|[]]. now apply Hc.
    + inversion IH as [|? ? (body & Hbody & Hl) Hls]; subst.
      constructor; [|exact Hls].
      exists (c :: body). split.
      * intros [H|H]; [now apply Hc|now apply Hbody].
      * destruct Hl as [->|[-> _]]; [now left|right].
        split; [reflexivity|discriminate].
Qed.

Lemma lines_of_text_shape (text : str) :
  Forall (fun l => l <> [] /\ ~ In CR l
                   /\ exists body,
                        ~ In LF body /\ (l = body ++ [LF] \/ l = body))
         (lines_of_text text).
Proof.
  unfold lines_of_text.
  pose proof (split_keepends_shape (universal_newlines text)) as Hshape.
  pose proof (split_keepends_concat (universal_newlines text)) as Hcat.
  pose proof (universal_newlines_no_cr text) as Hcr.
  rewrite <- Hcat in Hcr.
  rewrite Forall_forall in *. intros l Hl.
  destruct (Hshape l Hl) as (body & Hbody & Hcase).
  split; [|split].
  - destruct Hcase as [->|[-> Hne]]; [now destruct body|exact Hne].
  - intro H. apply Hcr. apply in_concat. now exists l.
  - exists body. split; [exact Hbody|].
    destruct Hcase as [->|[-> _]]; [now left|now right].
Qed.

(** X6. [readlines] loses nothing and cuts only after line ends: the
    lines put together are the text with its line ends translated to LF
    (the text itself when it has no CR); no line is empty, no line holds
    a CR, and a line holds LF as its last character or not at all. *)
Theorem X6_lines_of_text_partition_the_text :
  forall text : str,
    List.concat (lines_of_text text) = universal_newlines text
    /\ (~ In CR text -> List.concat (lines_of_text text) = text)
    /\ Forall (fun l => l <> [] /\ ~ In CR l
                        /\ exists body,
                             ~ In LF body /\ (l = body ++ [LF] \/ l = body))
              (lines_of_text text).
Proof.
  intro text. unfold lines_of_text.
  split; [apply split_keepends_concat|]. split.
  - intro H. rewrite split_keepends_concat.
    now apply universal_newlines_without_cr.
  - apply (lines_of_text_shape text).
Qed.

Lemma strip_subset (s : str) (x : char) : In x (strip s) -> In x s.
Proof.
  destruct (strip_decompose s) as (ws1 & ws2 & Heq & _ & _).
  intro H. rewrite Heq. apply in_or_app. right.
  apply in_or_app. now left.
Qed.

Lemma universal_newlines_to_crlf (text : str) :
  ~ In CR text -> universal_newlines (to_crlf text) = text.
Proof.
  induction text as [|c r IH]; intro H; [reflexivity|].
  assert (Hr : ~ In CR r) by (intro; apply H; now right).
  assert (Hc : (c =? CR) = false).
  { apply N.eqb_neq. intro E. apply H. now left. }
  unfold to_crlf. cbn [flat_map]. fold (to_crlf r).
  destruct (c =? LF) eqn:Hlf.
  - apply N.eqb_eq in Hlf. subst c. cbn. f_equal. now apply IH.
  - cbn [app universal_newlines]. rewrite Hc. f_equal. now apply IH.
Qed.

Lemma universal_newlines_to_cr (text : str) :
  ~ In CR text -> universal_newlines (to_cr text) = text.
Proof.
  induction text as [|c r IH]; intro H; [reflexivity|].
  assert (Hr : ~ In CR r) by (intro; apply H; now right).
  assert (Hc : (c =? CR) = false).
  { apply N.eqb_neq. intro E. apply H. now left. }
  specialize (IH Hr).
  unfold to_cr in *. cbn [map]. destruct (c =? LF) eqn:Hlf.
  - apply N.eqb_eq in Hlf. subst c. cbn [universal_newlines].
    change (CR =? CR) with true. cbn match. f_equal.
    destruct r as [|e r']; [reflexivity|].
    cbn [map] in *.
    destruct (e =? LF) eqn:E.
    + change (CR =? LF) with false. cbn match. exact IH.
    + rewrite E. exact IH.
  - cbn [universal_newlines]. rewrite Hc. now f_equal.
Qed.

(** X8. The line-end convention of the file does not matter: a text with
    LF line ends, the same text with CR LF line ends and the same text
    with CR line ends are read as the same lines, and so give the same
    document and the same output. *)
Theorem X8_line_end_convention_does_not_matter :
  forall text : str,
    ~ In CR text ->
    lines_of_text (to_crlf text) = lines_of_text text
    /\ lines_of_text (to_cr text) = lines_of_text text
    /\ ruleset_of (lines_of_text (to_crlf text))
       = ruleset_of (lines_of_text text)
    /\ ruleset_of (lines_of_text (to_cr text))
       = ruleset_of (lines_of_text text).
Proof.
  intros text H.
  assert (H1 : lines_of_text (to_crlf text) = lines_of_text text).
  { unfold lines_of_text.
    now rewrite universal_newlines_to_crlf, universal_newlines_without_cr. }
  assert (H2 : lines_of_text (to_cr text) = lines_of_text text).
  { unfold lines_of_text.
    now rewrite universal_newlines_to_cr, universal_newlines_without_cr. }
  now rewrite H1, H2.
Qed.

Lemma X8_witness :
  ~ In CR scenario_text
  /\ lines_of_text (to_crlf scenario_text) = lines_of_text scenario_text
  /\ lines_of_text (to_cr scenario_text) = lines_of_text scenario_text.
Proof.
  assert (H : ~ In CR scenario_text).
  { intro H. vm_compute in H.
    repeat (destruct H as [H|H]; [discriminate H|]). exact H. }
  split; [exact H|].
  destruct (X8_line_end_convention_does_not_matter scenario_text H)
    as (H1 & H2 & _).
  now split.
Defined.

Lemma universal_newlines_final_lf (text : str) :
  universal_newlines (text ++ [LF]) = universal_newlines text ++ [LF]
  \/ universal_newlines (text ++ [LF]) = universal_newlines text.
Proof.
  induction text as [text IH] using universal_newlines_length_ind.
  destruct text as [|c r]; [now left|].
  cbn [app universal_newlines]. destruct (c =? CR).
  - destruct r as [|d r'].
    + right. reflexivity.
    + cbn [app]. destruct (d =? LF).
      * destruct (IH r') as [H|H]; [cbn; lia| |]; rewrite H;
          [now left|now right].
      * destruct (IH (d :: r')) as [H|H]; [cbn; lia| |];
          cbn [app] in H; rewrite H; [now left|now right].
  - destruct (IH r) as [H|H]; [cbn; lia| |]; rewrite H;
      [now left|now right].
Qed.

Lemma split_keepends_final_lf (s : str) :
  split_keepends (s ++ [LF]) = split_keepends s ++ [[LF]]
  \/ exists ls l,
       split_keepends s = ls ++ [l]
       /\ split_keepends (s ++ [LF]) = ls ++ [l ++ [LF]].
Proof.
  induction s as [|c r IH]; [now left|].
  cbn [app split_keepends]. destruct (c =? LF).
  - destruct IH as [H|(ls & l & H1 & H2)].
    + left. now rewrite H.
    + right. exists ([c] :: ls), l. now rewrite H1, H2.
  - destruct IH as [H|(ls & l & H1 & H2)].
    + rewrite H. destruct (split_keepends r) as [|l0 ls0].
      * right. now exists [], [c].
      * now left.
    + rewrite H1, H2. right. destruct ls as [|l0 ls'].
      * now exists [], (c :: l).
      * now exists ((c :: l0) :: ls'), l.
Qed.

Lemma patterns_of_final_lf (s : str) :
  patterns_of (split_keepends (s ++ [LF])) = patterns_of (split_keepends s).
Proof.
  destruct (split_keepends_final_lf s) as [H|(ls & l & H1 & H2)].
  - rewrite H, patterns_of_app. apply app_nil_r.
  - rewrite H1, H2, !patterns_of_app, !patterns_of_one. f_equal.
    apply contribution_trimmed. now apply strip_trailing_spaces.
Qed.

(** X9. A line end after the last line, or one more of them, makes no
    difference: the text followed by LF gives the same patterns and the
    same document as the text. *)
Theorem X9_final_line_end_does_not_matter :
  forall text : str,
    patterns_of (lines_of_text (text ++ [LF]))
    = patterns_of (lines_of_text text)
    /\ ruleset_of (lines_of_text (text ++ [LF]))
       = ruleset_of (lines_of_text text).
Proof.
  intro text.
  assert (H : patterns_of (lines_of_text (text ++ [LF]))
              = patterns_of (lines_of_text text)).
  { unfold lines_of_text.
    destruct (universal_newlines_final_lf text) as [E|E]; rewrite E;
      [apply patterns_of_final_lf|reflexivity]. }
  split; [exact H|]. now rewrite !ruleset_of_document, H.
Qed.

(** ** The dictionary displays (lines 23-37) *)

Lemma str_eqb_eq (a b : str) : str_eqb a b = true <-> a = b.
Proof.
  revert b. induction a as [|x a IH]; intros [|y b]; cbn;
    try (split; [discriminate|discriminate]); [now split|].
  rewrite andb_true_iff, N.eqb_eq, IH. split.
  - now intros [-> ->].
  - intro H. injection H as -> ->. now split.
Qed.

Lemma str_eqb_neq (a b : str) : a <> b -> str_eqb a b = false.
Proof.
  intro H. destruct (str_eqb a b) eqn:E; [|reflexivity].
  apply str_eqb_eq in E. now elim H.
Qed.

Lemma dict_setitem_new (items : list (str * pyobj)) (k : str) (v : pyobj) :
  ~ In k (map fst items) -> dict_setitem items k v = items ++ [(k, v)].
Proof.
  induction items as [|[k' v'] rest IH]; intro H; [reflexivity|].
  cbn [dict_setitem]. rewrite str_eqb_neq.
  - cbn. f_equal. apply IH. intro Hin. apply H. now right.
  - intro E. apply H. now left.
Qed.

Lemma dict_display_from (kvs acc : list (str * pyobj)) :
  NoDup (map fst (acc ++ kvs)) ->
  fold_left (fun items kv => dict_setitem items (fst kv) (snd kv)) kvs acc
  = acc ++ kvs.
Proof.
  revert acc. induction kvs as [|[k v] rest IH]; intros acc H.
  - now rewrite app_nil_r.
  - cbn [fold_left fst snd]. rewrite dict_setitem_new.
    + rewrite IH; rewrite <- app_assoc; [reflexivity|exact H].
    + rewrite map_app in H. cbn in H.
      apply NoDup_remove_2 in H. intro Hin. apply H.
      apply in_or_app. now left.
Qed.

Lemma assoc_str_in (items : list (str * pyobj)) (k : str) (v : pyobj) :
  NoDup (map fst items) -> In (k, v) items -> assoc_str items k = Some v.
Proof.
  induction items as [|[k' v'] rest IH]; intros Hnd Hin; [destruct Hin|].
  cbn in Hnd. inversion Hnd as [|? ? Hnotin Hnd']; subst.
  cbn [assoc_str]. destruct Hin as [E|Hin].
  - injection E as -> ->.
    now rewrite (proj2 (str_eqb_eq k k) eq_refl).
  - rewrite str_eqb_neq; [now apply IH|].
    intros ->. apply Hnotin. apply in_map_iff. now exists (k, v).
Qed.

Lemma assoc_str_not_in (items : list (str * pyobj)) (k : str) :
  ~ In k (map fst items) -> assoc_str items k = None.
Proof.
  induction items as [|[k' v'] rest IH]; intro H; [reflexivity|].
  cbn [assoc_str]. rewrite str_eqb_neq.
  - apply IH. intro Hin. apply H. now right.
  - intro E. apply H. now left.
Qed.

(** X12. A dictionary display whose keys differ from one another holds
    its items as written, in the written order; subscription by a written
    key gives the value written with it, subscription by any other key
    fails. *)
Theorem X12_display_with_distinct_keys :
  forall (kvs : list (str * pyobj)) (id : objid),
    NoDup (map fst kvs) ->
    dict_display kvs = kvs
    /\ (forall k v, In (k, v) kvs ->
                    getitem (PyDict id (dict_display kvs)) k = Some v)
    /\ (forall k, ~ In k (map fst kvs) ->
                  getitem (PyDict id (dict_display kvs)) k = None).
Proof.
  intros kvs id Hnd.
  assert (H : dict_display kvs = kvs).
  { unfold dict_display. now rewrite dict_display_from. }
  rewrite H. cbn [getitem]. split; [reflexivity|]. split.
  - intros k v. now apply assoc_str_in.
  - apply assoc_str_not_in.
Qed.

Lemma X12_witness :
  NoDup (map fst [(u "type", PyStr (u "file_path_restriction"));
                  (u "parameters", PyDict 5 [])])
  /\ dict_display [(u "type", PyStr (u "file_path_restriction"));
                   (u "parameters", PyDict 5 [])]
     = [(u "type", PyStr (u "file_path_restriction"));
        (u "parameters", PyDict 5 [])].
Proof.
  assert (Hnd : NoDup (map fst [(u "type", PyStr (u "file_path_restriction"));
                                (u "parameters", PyDict 5 [])])).
  { constructor; [|constructor; [intros []|constructor]].
    intros [H|[]]. discriminate H. }
  split; [exact Hnd|].
  exact (proj1 (X12_display_with_distinct_keys _ 6%nat Hnd)).
Defined.

(** * The emitter on the document *)

Lemma then_assoc (a : emitted) (k1 k2 : emitter -> emitted) :
  then_ (then_ a k1) k2 = then_ a (fun em => then_ (k1 em) k2).
Proof.
  destruct a as [e|[t em]]; [reflexivity|]. cbn.
  destruct (k1 em) as [e|[t1 em1]]; [reflexivity|]. cbn.
  destruct (k2 em1) as [e|[t2 em2]]; [reflexivity|].
  now rewrite app_assoc.
Qed.

Lemma then_silently (em : emitter) (k : emitter -> emitted) :
  then_ (silently em) k = k em.
Proof. cbn. destruct (k em) as [e|[t em']]; reflexivity. Qed.

Lemma then_ext (a : emitted) (k1 k2 : emitter -> emitted) :
  (forall em, k1 em = k2 em) -> then_ a k1 = then_ a k2.
Proof.
  intro H. destruct a as [e|[t em]]; [reflexivity|]. cbn. now rewrite H.
Qed.

Lemma emit_events_app (l1 l2 : list event) (after : option event) :
  forall em,
    emit_events (l1 ++ l2) after em
    = then_ (emit_events l1 (match l2 with
                             | [] => after
                             | next :: _ => Some next
                             end) em)
            (emit_events l2 after).
Proof.
  induction l1 as [|e rest IH]; intro em.
  - cbn [app emit_events]. now rewrite then_silently.
  - cbn [app emit_events]. rewrite then_assoc.
    assert (Hnext : match rest ++ l2 with
                    | [] => after
                    | next :: _ => Some next
                    end
                    = match rest with
                      | [] => match l2 with
                              | [] => after
                              | next :: _ => Some next
                              end
                      | next :: _ => Some next
                      end) by now destruct rest.
    rewrite Hnext. apply then_ext. exact IH.
Qed.

(** ** The queue of the emitter *)

Lemma level_closes_stream_end (l : list event) :
  forall level, level_closes (l ++ [StreamEndEvent]) level = true.
Proof.
  induction l as [|ev l IH]; intro level; [reflexivity|].
  destruct ev; cbn [app level_closes]; try apply IH; try reflexivity;
    (destruct level; [reflexivity|apply IH]).
Qed.

Lemma need_more_events_closed (l : list event) :
  need_more_events (l ++ [StreamEndEvent]) = false.
Proof.
  destruct l as [|ev l]; [reflexivity|].
  destruct ev; try reflexivity;
    cbn [app need_more_events]; unfold need_events; cbn [tl];
    now rewrite level_closes_stream_end.
Qed.

Lemma step_alone (ev : event) (n1 n2 : option event) (em : emitter) :
  need_more_events [ev] = false ->
  emitter_step ev n1 em = emitter_step ev n2 em.
Proof.
  intro H. destruct ev; try discriminate H;
    unfold emitter_step; destruct (state em); reflexivity.
Qed.

Lemma played_cons (text : str) (em : emitter) (ev : event)
      (rest : list event) :
  played text em (ev :: rest)
  = match emitter_step ev (hd_error rest) em with
    | Raise e => Raise e
    | Return (t, em') => played (text ++ t) em' rest
    end.
Proof.
  unfold played. cbn [emit_events then_].
  replace (match rest with [] => None | next :: _ => Some next end)
    with (hd_error rest) by now destruct rest.
  destruct (emitter_step ev (hd_error rest) em) as [e|[t em']];
    [reflexivity|]. cbn [then_].
  destruct (emit_events rest None em') as [e|[t2 em2]]; [reflexivity|].
  now rewrite app_assoc.
Qed.

Lemma emit_loop_sound (future : list event) :
  forall fuel events text em,
    match emit_loop fuel text em events with
    | Raise e => played text em (events ++ future) = Raise e
    | Return (text', em', events') =>
        played text em (events ++ future)
        = played text' em' (events' ++ future)
        /\ exists done, events = done ++ events'
    end.
Proof.
  induction fuel as [|fuel IH]; intros events text em.
  - cbn. split; [reflexivity|now exists []].
  - cbn [emit_loop]. destruct (need_more_events events) eqn:Hneed.
    + split; [reflexivity|now exists []].
    + destruct events as [|ev rest]; [discriminate Hneed|].
      cbn [app]. rewrite played_cons.
      assert (Hstep : emitter_step ev (hd_error (rest ++ future)) em
                      = emitter_step ev (hd_error rest) em).
      { destruct rest as [|next rest']; [|reflexivity].
        now apply step_alone. }
      rewrite Hstep.
      destruct (emitter_step ev (hd_error rest) em) as [e|[t em']];
        [reflexivity|].
      specialize (IH rest (text ++ t) em').
      destruct (emit_loop fuel (text ++ t) em' rest)
        as [e|[[text' em''] events']]; [exact IH|].
      destruct IH as (IH & done & ->). split; [exact IH|].
      now exists (ev :: done).
Qed.

Lemma emit_loop_drained :
  forall fuel events text em text' em' events',
    (List.length events <= fuel)%nat ->
    emit_loop fuel text em events = Return (text', em', events') ->
    need_more_events events' = true.
Proof.
  induction fuel as [|fuel IH]; intros events text em text' em' events' Hlen H.
  - destruct events; [|cbn in Hlen; lia]. cbn in H. now injection H as _ _ <-.
  - cbn [emit_loop] in H. destruct (need_more_events events) eqn:Hneed.
    + now injection H as _ _ <-.
    + destruct events as [|ev rest]; [discriminate Hneed|].
      destruct (emitter_step ev (hd_error rest) em) as [e|[t em1]];
        [discriminate H|].
      apply (IH rest (text ++ t) em1 text' em' events'); [|exact H].
      cbn in Hlen. lia.
Qed.

Lemma emit_all_sound :
  forall evs events text em,
    need_more_events events = true ->
    match emit_all evs text em events with
    | Raise e => played text em (events ++ evs) = Raise e
    | Return (text', em', events') =>
        played text em (events ++ evs) = played text' em' events'
        /\ (exists done, events ++ evs = done ++ events')
        /\ need_more_events events' = true
    end.
Proof.
  induction evs as [|ev evs IH]; intros events text em Hneed.
  - cbn [emit_all]. rewrite app_nil_r.
    split; [reflexivity|]. split; [now exists []|exact Hneed].
  - cbn [emit_all]. unfold emit.
    pose proof (emit_loop_sound evs (S (List.length events))
                  (events ++ [ev]) text em) as Hloop.
    pose proof (emit_loop_drained (S (List.length events))
                  (events ++ [ev]) text em) as Hdrained.
    rewrite <- app_assoc in Hloop. cbn [app] in Hloop.
    destruct (emit_loop (S (List.length events)) text em (events ++ [ev]))
      as [e|[[text1 em1] events1]]; [exact Hloop|].
    destruct Hloop as (Hplayed & done & Hdone).
    assert (Hneed1 : need_more_events events1 = true).
    { apply (Hdrained text1 em1 events1); [|reflexivity].
      rewrite length_app. cbn. lia. }
    specialize (IH events1 text1 em1 Hneed1).
    destruct (emit_all evs text1 em1 events1)
      as [e|[[text' em'] events']].
    + now rewrite Hplayed.
    + destruct IH as (IH & (done' & Hdone') & Hneed').
      split; [now rewrite Hplayed|]. split; [|exact Hneed'].
      exists (done ++ done').
      replace (events ++ ev :: evs) with ((events ++ [ev]) ++ evs)
        by now rewrite <- app_assoc.
      now rewrite Hdone, <- !app_assoc, Hdone'.
Qed.

Lemma emit_stream_closed (l : list event) :
  emit_stream (l ++ [StreamEndEvent]) = play_events (l ++ [StreamEndEvent]).
Proof.
  unfold emit_stream, play_events.
  pose proof (emit_all_sound (l ++ [StreamEndEvent]) [] [] initial_emitter
                eq_refl) as H.
  cbn [app] in H. unfold played in H. cbn [then_] in H.
  destruct (emit_all (l ++ [StreamEndEvent]) [] initial_emitter [])
    as [e|[[text' em'] events']].
  - destruct (emit_events (l ++ [StreamEndEvent]) None initial_emitter)
      as [e'|[t em1]]; [now injection H as ->|discriminate H].
  - destruct H as (H & (done & Hdone) & Hneed).
    assert (Hempty : events' = []).
    { destruct events' as [|x y]; [reflexivity|]. exfalso.
      destruct (@exists_last _ (x :: y)) as (l' & last & Hlast);
        [discriminate|].
      rewrite Hlast, app_assoc in Hdone.
      apply app_inj_tail in Hdone as [_ Heq]. subst last.
      rewrite Hlast, need_more_events_closed in Hneed. discriminate Hneed. }
    subst events'. cbn [emit_events then_ silently] in H.
    destruct (emit_events (l ++ [StreamEndEvent]) None initial_emitter)
      as [e'|[t em1]]; [discriminate H|].
    injection H as -> _. now rewrite app_nil_r.
Qed.

Lemma emit_stream_framed (header middle footer : list event) :
  footer <> [] ->
  last footer StreamStartEvent = StreamEndEvent ->
  emit_stream (header ++ middle ++ footer)
  = play_events (header ++ middle ++ footer).
Proof.
  intros Hne Hlast. destruct (exists_last Hne) as (l & x & ->).
  rewrite last_last in Hlast. subst x. rewrite !app_assoc.
  apply emit_stream_closed.
Qed.

(** ** The items of the sequence of patterns *)

Lemma analyze_loop_block_indicators (fuel : nat) (text : str) :
  forall index s,
    block_indicators s = true ->
    block_indicators (analyze_loop fuel text index s) = true.
Proof.
  induction fuel as [|fuel IH]; intros index s H; [exact H|].
  cbn [analyze_loop]. destruct (char_at text index) as [ch|]; [|exact H].
  apply IH. cbn [analyze_char block_indicators]. now rewrite H.
Qed.

(** A scalar that starts with a star is never written plain. *)
Lemma starred_not_plain (p : str) :
  starred p -> an_allow_block_plain (analyze_scalar p) = false.
Proof.
  intros [rest ->]. unfold analyze_scalar.
  cbn [an_allow_block_plain List.length analyze_loop char_at nth_error].
  rewrite analyze_loop_block_indicators; [now rewrite !orb_true_r|].
  reflexivity.
Qed.

Lemma choose_scalar_style_item (em : emitter) (p : str) :
  starred p -> simple_key_context em = false -> flow_level em = 0%nat ->
  choose_scalar_style em tag_str p
  = if an_allow_single_quoted (analyze_scalar p) then SingleQuoted
    else DoubleQuoted.
Proof.
  intros Hp Hk Hf. unfold choose_scalar_style.
  rewrite Hk, Hf, (starred_not_plain p Hp). cbn [Nat.ltb Nat.leb andb].
  now rewrite !andb_false_r, andb_true_r.
Qed.

Lemma write_quoted_cursor (p : str) (indent : option nat) (c : cursor) :
  exists col,
    snd (write_quoted p indent c)
    = {| column := col; whitespace := false; indention := false;
         open_ended := false |}.
Proof.
  unfold write_quoted. destruct (an_allow_single_quoted (analyze_scalar p)).
  - unfold write_single_quoted, wseq.
    destruct (write_indicator [39] true false false c) as [t1 c1].
    destruct (write_single_quoted_loop _ _ _ _ _ _ _ _ c1) as [t2 c2].
    cbn. rewrite andb_false_r. eexists. reflexivity.
  - unfold write_double_quoted, wseq.
    destruct (write_indicator [34] true false false c) as [t1 c1].
    destruct (write_double_quoted_loop _ _ _ _ _ _ c1) as [t2 c2].
    cbn. rewrite andb_false_r. eexists. reflexivity.
Qed.

Lemma process_scalar_tag_item (em : emitter) (p : str) :
  starred p -> simple_key_context em = false -> flow_level em = 0%nat ->
  process_scalar_tag tag_str p em = silently em.
Proof.
  intros Hp Hk Hf. unfold process_scalar_tag.
  rewrite (choose_scalar_style_item em p Hp Hk Hf).
  now destruct (an_allow_single_quoted (analyze_scalar p)).
Qed.

Lemma process_scalar_item (em : emitter) (p : str) :
  starred p -> simple_key_context em = false -> flow_level em = 0%nat ->
  process_scalar tag_str p em = write (write_quoted p (indent em)) em.
Proof.
  intros Hp Hk Hf. unfold process_scalar, write_quoted.
  rewrite (choose_scalar_style_item em p Hp Hk Hf), Hk.
  now destruct (an_allow_single_quoted (analyze_scalar p)).
Qed.

Lemma expect_node_scalar (root sequence mapping simple_key : bool)
      (p : str) (next : option event) (em : emitter) :
  expect_node root sequence mapping simple_key (scalar p) next em
  = then_ (process_scalar_tag tag_str p
             (with_contexts em root sequence mapping simple_key))
          (expect_scalar tag_str p).
Proof.
  unfold expect_node, scalar, process_anchor. now rewrite then_silently.
Qed.

Lemma item_step (p : str) (first : bool) (col : nat) (next : option event) :
  starred p ->
  exists col',
    emitter_step (scalar p) next (item_emitter first col)
    = Return (LF :: u "    -" ++ pattern_text p, item_emitter false col').
Proof.
  intro Hp.
  destruct (write_quoted_cursor p (Some 6%nat) item_cursor) as [col' Hcol].
  exists col'.
  assert (Hstep : emitter_step (scalar p) next (item_emitter first col)
                  = block_sequence_item false (scalar p) next
                      (item_emitter first col)).
  { unfold emitter_step, block_sequence_item.
    destruct first; cbn [state item_emitter scalar is_sequence_end];
      now rewrite ?andb_false_r. }
  rewrite Hstep. unfold block_sequence_item.
  replace (negb false && is_sequence_end (scalar p)) with false
    by reflexivity.
  assert (Hdash : write (wseq (write_indent (indent (item_emitter first col)))
                              (write_indicator (u "-") true false true))
                        (item_emitter first col)
                  = Return (LF :: u "    -",
                            with_cur (item_emitter first col) item_cursor))
    by reflexivity.
  rewrite Hdash. cbv beta iota delta [then_].
  rewrite expect_node_scalar.
  rewrite process_scalar_tag_item; [|exact Hp|reflexivity|reflexivity].
  rewrite then_silently.
  unfold expect_scalar.
  rewrite process_scalar_item; [|exact Hp|reflexivity|reflexivity].
  unfold write at 1.
  change (cur _) with item_cursor at 1.
  change (indent (increase_indent _ _ _)) with (Some 6%nat).
  unfold pattern_text. fold (write_quoted p (Some 6%nat)).
  destruct (write_quoted p (Some 6%nat) item_cursor) as [t c].
  cbn [snd] in Hcol. subst c. cbn [fst].
  destruct first; cbn -[u]; rewrite ?app_nil_r; reflexivity.
Qed.

Lemma items_run (ps : list str) :
  Forall starred ps ->
  forall (p : str) (first : bool) (col : nat) (after : option event),
    starred p ->
    exists col',
      emit_events (map scalar (p :: ps)) after (item_emitter first col)
      = Return (flat_map (fun p => LF :: u "    -" ++ pattern_text p)
                         (p :: ps),
                item_emitter false col').
Proof.
  induction 1 as [|q qs Hq Hqs IH]; intros p first col after Hp.
  - destruct (item_step p first col after Hp) as [col' Hstep].
    exists col'. cbn [map emit_events flat_map]. rewrite Hstep.
    cbn [then_ silently]. now rewrite !app_nil_r.
  - destruct (item_step p first col (Some (scalar q)) Hp) as [col1 Hstep].
    destruct (IH q false col1 after Hq) as [col' Hrest].
    exists col'. change (map scalar (p :: q :: qs))
      with (scalar p :: map scalar (q :: qs)).
    cbn [emit_events]. change (map scalar (q :: qs))
      with (scalar q :: map scalar qs) at 1.
    cbv iota. rewrite Hstep. cbn [then_]. rewrite Hrest.
    reflexivity.
Qed.

Lemma header_run (p : str) :
  emit_events header_events (Some (scalar p)) initial_emitter
  = Return (header_text, item_emitter true 20).
Proof. vm_compute. reflexivity. Qed.

Lemma footer_run (col : nat) :
  exists em,
    emit_events footer_events None (item_emitter false col)
    = Return (footer_text, em).
Proof. eexists. vm_compute. reflexivity. Qed.

Lemma document_events_split (patterns : list str) :
  document_events patterns
  = header_events ++ map scalar patterns ++ footer_events.
Proof. reflexivity. Qed.

Lemma emit_stream_empty_document :
  emit_stream (document_events []) = Return (document_text []).
Proof. vm_compute. reflexivity. Qed.

Lemma emit_stream_document (patterns : list str) :
  Forall starred patterns ->
  emit_stream (document_events patterns) = Return (document_text patterns).
Proof.
  intro H. destruct H as [|p ps Hp Hps]; [exact emit_stream_empty_document|].
  rewrite document_events_split.
  rewrite emit_stream_framed by (discriminate || reflexivity).
  unfold play_events. rewrite emit_events_app.
  change (match map scalar (p :: ps) ++ footer_events with
          | [] => None
          | next :: _ => Some next
          end) with (Some (scalar p)).
  rewrite header_run. cbn [then_].
  rewrite emit_events_app.
  destruct (items_run ps Hps p true 20
              (match footer_events with
               | [] => None
               | next :: _ => Some next
               end) Hp) as [col Hitems].
  rewrite Hitems. cbn [then_].
  destruct (footer_run col) as [em Hfooter]. rewrite Hfooter.
  unfold document_text, header_text, footer_text, sequence_text.
  now rewrite <- !app_assoc.
Qed.
Lemma yaml_events_sorted_document (patterns : list str) :
  yaml_events true (document patterns)
  = sorted_header_events ++ map scalar patterns ++ sorted_footer_events.
Proof.
  unfold yaml_events, document.
  cbn. rewrite represent_str_items. cbn.
  rewrite anchor_scalar_nodes. cbn.
  rewrite serialize_scalar_nodes. cbn.
  unfold sorted_header_events, sorted_footer_events.
  rewrite <- ?app_assoc. reflexivity.
Qed.

Lemma sorted_header_run (p : str) :
  emit_events sorted_header_events (Some (scalar p)) initial_emitter
  = Return (sorted_header_text, item_emitter true 20).
Proof. vm_compute. reflexivity. Qed.

Lemma sorted_footer_run (col : nat) :
  exists em,
    emit_events sorted_footer_events None (item_emitter false col)
    = Return (sorted_footer_text, em).
Proof. eexists. vm_compute. reflexivity. Qed.

Lemma emit_stream_sorted_empty_document :
  emit_stream (sorted_header_events ++ sorted_footer_events)
  = Return (sorted_document_text []).
Proof. vm_compute. reflexivity. Qed.

Lemma emit_stream_sorted_document (patterns : list str) :
  Forall starred patterns ->
  emit_stream (sorted_header_events ++ map scalar patterns
               ++ sorted_footer_events)
  = Return (sorted_document_text patterns).
Proof.
  intro H.
  destruct H as [|p ps Hp Hps]; [exact emit_stream_sorted_empty_document|].
  rewrite emit_stream_framed by (discriminate || reflexivity).
  unfold play_events. rewrite emit_events_app.
  change (match map scalar (p :: ps) ++ sorted_footer_events with
          | [] => None
          | next :: _ => Some next
          end) with (Some (scalar p)).
  rewrite sorted_header_run. cbn [then_].
  rewrite emit_events_app.
  destruct (items_run ps Hps p true 20
              (match sorted_footer_events with
               | [] => None
               | next :: _ => Some next
               end) Hp) as [col Hitems].
  rewrite Hitems. cbn [then_].
  destruct (sorted_footer_run col) as [em Hfooter]. rewrite Hfooter.
  unfold sorted_document_text, sorted_header_text, sorted_footer_text,
    sequence_text.
  now rewrite <- !app_assoc.
Qed.

Lemma patterns_starred (lines : list str) :
  Forall starred (patterns_of lines).
Proof.
  rewrite patterns_of_filter_map. apply Forall_forall. intros p Hin.
  apply in_map_iff in Hin as (line & <- & _).
  now exists (46 :: strip line).
Qed.

Lemma pyyaml_dump_ruleset (lines : list str) :
  pyyaml_dump false (ruleset_of lines)
  = Return (document_text (patterns_of lines)).
Proof.
  unfold pyyaml_dump. rewrite ruleset_of_document, yaml_events_document.
  apply emit_stream_document, patterns_starred.
Qed.

Lemma pyyaml_dump_sorted_ruleset (lines : list str) :
  pyyaml_dump true (ruleset_of lines)
  = Return (sorted_document_text (patterns_of lines)).
Proof.
  unfold pyyaml_dump.
  rewrite ruleset_of_document, yaml_events_sorted_document.
  apply emit_stream_sorted_document, patterns_starred.
Qed.

Lemma document_text_not_sorted (patterns : list str) :
  document_text patterns <> sorted_document_text patterns.
Proof. discriminate. Qed.

(** ** The run in its environment *)

Lemma run_with_input (env : environment) (text : str) :
  env_import_yaml env = Return tt ->
  input_text env text ->
  run env
  = print_to (env_stdout env)
             (document_text (patterns_of (lines_of_text text))).
Proof.
  intros Himport (f & raw & Hopen & Hread & Hdecode).
  unfold run, readlines.
  now rewrite Himport, Hopen, Hread, Hdecode, pyyaml_dump_ruleset.
Qed.




Lemma print_to_prefix (out : str -> stdout_result) (text : str) :
  exists n, run_stdout (print_to out text) = firstn n (print text).
Proof.
  unfold print_to. destruct (out (print text)) as [|n|e n|e n]; cbn.
  - exists (List.length (print text)). now rewrite firstn_all.
  - now exists n.
  - now exists n.
  - now exists n.
Qed.


(** ** Object identities *)

Lemma rename_str_items (f : objid -> objid) (l : list str) :
  map (rename_ids f) (map PyStr l) = map PyStr l.
Proof. induction l as [|s l IH]; [reflexivity|]. cbn. now rewrite IH. Qed.

Ltac eqb_ids Hinj :=
  repeat match goal with
    | |- context [Nat.eqb ?a ?a] => rewrite (Nat.eqb_refl a)
    | |- context [Nat.eqb (?f ?a) (?f ?b)] =>
        replace (Nat.eqb (f a) (f b)) with false
          by (symmetry; apply Nat.eqb_neq;
              let Heq := fresh "Heq" in
              intro Heq; apply Hinj in Heq; lia)
    end.

Lemma yaml_events_renamed (f : objid -> objid) (patterns : list str) :
  (forall a b : objid, (a < 9)%nat -> (b < 9)%nat -> f a = f b -> a = b) ->
  yaml_events false (rename_ids f (document patterns))
  = document_events patterns.
Proof.
  intro Hinj. unfold yaml_events, document.
  cbn [rename_ids map]. rewrite rename_str_items.
  repeat (progress (cbn -[u Nat.eqb anchor_node serialize_node];
                    eqb_ids Hinj;
                    try rewrite represent_str_items)).
  match goal with
  | |- context [anchor_node ?n ?i] =>
      remember (anchor_node n i) as st eqn:Hst
  end.
  revert Hst.
  repeat (progress (unfold visit_anchor;
                    cbn -[u Nat.eqb serialize_node]; eqb_ids Hinj;
                    try rewrite anchor_scalar_nodes)).
  intros ->.
  repeat (progress (unfold anchor_of;
                    cbn -[u Nat.eqb]; eqb_ids Hinj;
                    try rewrite serialize_scalar_nodes)).
  unfold document_events. rewrite <- !app_assoc. reflexivity.
Qed.


Lemma pyyaml_dump_renamed (f : objid -> objid) (lines : list str) :
  (forall a b : objid, (a < 9)%nat -> (b < 9)%nat -> f a = f b -> a = b) ->
  pyyaml_dump false (rename_ids f (ruleset_of lines))
  = Return (document_text (patterns_of lines)).
Proof.
  intro Hinj. unfold pyyaml_dump.
  rewrite ruleset_of_document, (yaml_events_renamed f _ Hinj).
  apply emit_stream_document, patterns_starred.
Qed.

(** * The claims on the run in its environment *)

(** C8. The text that [yaml.dump(ruleset, sort_keys=False)] returns has
    the keys in the order the script wrote them: [name], [target],
    [enforcement], [conditions] (with [file_paths], [included], then
    [branches], [includes]), [rules] (with [type], [parameters],
    [restricted_file_patterns]).  It is not the text with sorted keys,
    which [sort_keys=True] gives and which starts with [conditions].  The
    run writes this text and the newline of [print] to standard output:
    all of it when standard output accepts it, and never anything but a
    prefix of it. *)
Theorem C8_keys_in_authored_order_on_stdout :
  forall (env : environment) (text : str),
    env_import_yaml env = Return tt ->
    input_text env text ->
    pyyaml_dump false (ruleset_of (lines_of_text text))
    = Return (document_text (patterns_of (lines_of_text text)))
    /\ pyyaml_dump true (ruleset_of (lines_of_text text))
       = Return (sorted_document_text (patterns_of (lines_of_text text)))
    /\ document_text (patterns_of (lines_of_text text))
       <> sorted_document_text (patterns_of (lines_of_text text))
    /\ (env_stdout env
          (document_text (patterns_of (lines_of_text text)) ++ [LF])
        = Accepted ->
        run env
        = {| run_status := 0;
             run_stdout :=
               document_text (patterns_of (lines_of_text text)) ++ [LF];
             run_stderr := Quiet |})
    /\ (exists n,
          run_stdout (run env)
          = firstn n
              (document_text (patterns_of (lines_of_text text)) ++ [LF])).
Proof.
  intros env text Himport Htext.
  split; [apply pyyaml_dump_ruleset|].
  split; [apply pyyaml_dump_sorted_ruleset|].
  split; [apply document_text_not_sorted|].
  rewrite (run_with_input env text Himport Htext). split.
  - intro Hout. unfold print_to, print. now rewrite Hout.
  - apply print_to_prefix.
Qed.

Lemma C8_witness :
  env_import_yaml
    (environment_with utf8_decode (latin1_encode scenario_text) Accepted)
  = Return tt
  /\ input_text
       (environment_with utf8_decode (latin1_encode scenario_text) Accepted)
       scenario_text
  /\ run (environment_with utf8_decode (latin1_encode scenario_text) Accepted)
     = {| run_status := 0;
          run_stdout :=
            u "name: Block Forbidden File Types" ++ [LF]
            ++ u "target: push" ++ [LF]
            ++ u "enforcement: active" ++ [LF]
            ++ u "conditions:" ++ [LF]
            ++ u "  file_paths:" ++ [LF]
            ++ u "    included: &id001" ++ [LF]
            ++ u "    - '*.exe'" ++ [LF]
            ++ u "    - '*.bat'" ++ [LF]
            ++ u "    - '*.tar.gz'" ++ [LF]
            ++ u "  branches:" ++ [LF]
            ++ u "    includes:" ++ [LF]
            ++ u "    - '*'" ++ [LF]
            ++ u "rules:" ++ [LF]
            ++ u "- type: file_path_restriction" ++ [LF]
            ++ u "  parameters:" ++ [LF]
            ++ u "    restricted_file_patterns: *id001" ++ [LF]
            ++ [LF];
          run_stderr := Quiet |}.
Proof.
  assert (Htext : input_text
                    (environment_with utf8_decode
                       (latin1_encode scenario_text) Accepted)
                    scenario_text).
  { exists {| raw_read := Return (latin1_encode scenario_text) |},
      (latin1_encode scenario_text).
    repeat split; reflexivity. }
  split; [reflexivity|]. split; [exact Htext|].
  destruct (C8_keys_in_authored_order_on_stdout
              (environment_with utf8_decode (latin1_encode scenario_text)
                                Accepted)
              scenario_text eq_refl Htext) as (_ & _ & _ & Hrun & _).
  rewrite (Hrun eq_refl). reflexivity.
Defined.







(** * Further properties of the run and of the event stream *)

(** X7. A pattern made from the lines of a file holds neither LF nor CR,
    the line ends of text mode.  The other characters that Unicode counts
    as line breaks are no line ends for [readlines]: U+2028, U+0085, VT
    and FF inside a line stay in its pattern. *)
Theorem X7_patterns_hold_no_line_end :
  forall (text p : str),
    In p (patterns_of (lines_of_text text)) ->
    ~ In LF p
    /\ ~ In CR p
    /\ patterns_of
         (lines_of_text (u "a" ++ [8232] ++ u "b" ++ [LF]
                         ++ u "c" ++ [133] ++ u "d" ++ [11] ++ u "e" ++ [12]
                         ++ u "f" ++ [CR; LF]))
       = [u "*.a" ++ [8232] ++ u "b";
          u "*.c" ++ [133] ++ u "d" ++ [11] ++ u "e" ++ [12] ++ u "f"].
Proof.
  intros text p Hin. rewrite patterns_of_filter_map in Hin.
  apply in_map_iff in Hin as (l & <- & Hl).
  apply filter_In in Hl as (Hl & _).
  pose proof (lines_of_text_shape text) as Hshape.
  rewrite Forall_forall in Hshape.
  destruct (Hshape l Hl) as (_ & Hcr & body & Hbody & Hcase).
  assert (Hstrip : strip l = strip body).
  { destruct Hcase as [->| ->]; [|reflexivity].
    now apply strip_trailing_spaces. }
  unfold pattern_of_line. split; [|split; [|reflexivity]]; intro H.
  - destruct H as [H|[H|H]]; try discriminate H.
    rewrite Hstrip in H. apply Hbody. now apply strip_subset.
  - destruct H as [H|[H|H]]; try discriminate H.
    apply Hcr. now apply strip_subset.
Qed.

Lemma X7_witness :
  In (u "*.exe")
     (patterns_of (lines_of_text (u "# c" ++ [CR] ++ u "exe" ++ [CR; LF])))
  /\ ~ In LF (u "*.exe") /\ ~ In CR (u "*.exe").
Proof.
  assert (Hin : In (u "*.exe")
                   (patterns_of
                      (lines_of_text (u "# c" ++ [CR] ++ u "exe" ++ [CR; LF])))).
  { left. reflexivity. }
  split; [exact Hin|].
  destruct (X7_patterns_hold_no_line_end
              (u "# c" ++ [CR] ++ u "exe" ++ [CR; LF]) (u "*.exe") Hin)
    as (Hlf & Hcr & _).
  split; [exact Hlf|exact Hcr].
Defined.




(** X11. The output does not depend on the identities of the objects:
    whatever identities the nine objects of the ruleset get, different
    objects getting different identities, the events handed to the
    emitter are the same, the anchor is [id001], and the dumped text is
    the same. *)
Theorem X11_output_independent_of_object_identities :
  forall (f : objid -> objid) (lines : list str),
    (forall a b : objid, (a < 9)%nat -> (b < 9)%nat -> f a = f b -> a = b) ->
    yaml_events false (rename_ids f (ruleset_of lines))
    = document_events (patterns_of lines)
    /\ pyyaml_dump false (rename_ids f (ruleset_of lines))
       = Return (document_text (patterns_of lines)).
Proof.
  intros f lines Hinj. split.
  - rewrite ruleset_of_document. now apply yaml_events_renamed.
  - now apply pyyaml_dump_renamed.
Qed.

Lemma X11_witness :
  (forall a b : objid,
      (a < 9)%nat -> (b < 9)%nat -> reversed_ids a = reversed_ids b -> a = b)
  /\ rename_ids reversed_ids (ruleset_of (lines_of_text scenario_text))
     <> ruleset_of (lines_of_text scenario_text)
  /\ pyyaml_dump false
       (rename_ids reversed_ids (ruleset_of (lines_of_text scenario_text)))
     = Return (document_text [u "*.exe"; u "*.bat"; u "*.tar.gz"]).
Proof.
  assert (Hinj : forall a b : objid,
             (a < 9)%nat -> (b < 9)%nat ->
             reversed_ids a = reversed_ids b -> a = b)
    by (unfold reversed_ids; lia).
  split; [exact Hinj|]. split; [discriminate|].
  destruct (X11_output_independent_of_object_identities
              reversed_ids (lines_of_text scenario_text) Hinj) as (_ & Hdump).
  exact Hdump.
Defined.

(** X13. [main] is the run in an environment where [yaml] can be
    imported and standard output accepts all that is written: there the
    run has the exit status, the standard output and the traceback of
    [main] with PyYAML's emitter. *)
Theorem X13_run_agrees_with_main :
  forall env : environment,
    env_import_yaml env = Return tt ->
    (forall text, env_stdout env text = Accepted) ->
    run_status (run env)
    = exit_status (main (env_decode env) pyyaml_emitter (env_files env))
    /\ run_stdout (run env)
       = stdout (main (env_decode env) pyyaml_emitter (env_files env))
    /\ run_stderr (run env)
       = match stderr (main (env_decode env) pyyaml_emitter (env_files env))
         with
         | Some tb => Uncaught tb
         | None => Quiet
         end.
Proof.
  intros env Himport Hout. unfold run, main. rewrite Himport.
  destruct (sys_open (env_files env) input_file) as [e|f];
    [repeat split|].
  destruct (readlines (env_decode env) f) as [e|lines]; [repeat split|].
  unfold output_of, yaml_dump, pyyaml_emitter.
  change (emit_stream (yaml_events false (ruleset_of lines)))
    with (pyyaml_dump false (ruleset_of lines)).
  rewrite pyyaml_dump_ruleset. unfold print_to. rewrite Hout.
  repeat split.
Qed.

Lemma X13_witness :
  env_import_yaml
    (environment_with utf8_decode (latin1_encode scenario_text) Accepted)
  = Return tt
  /\ run_stdout
       (run (environment_with utf8_decode (latin1_encode scenario_text)
                              Accepted))
     = stdout (main utf8_decode pyyaml_emitter
                    (world_with_file (latin1_encode scenario_text))).
Proof.
  split; [reflexivity|].
  destruct (X13_run_agrees_with_main
              (environment_with utf8_decode (latin1_encode scenario_text)
                                Accepted)
              eq_refl (fun _ => eq_refl)) as (_ & Hout & _).
  exact Hout.
Defined.

(** ** Patterns that are written as they are *)

Lemma quotable_inv (c : char) :
  quotable c = true -> 33 <= c <= 126 /\ c <> 39.
Proof.
  unfold quotable. rewrite !andb_true_iff, negb_true_iff, !N.leb_le, N.eqb_neq.
  tauto.
Qed.

Lemma quotable_char (c : char) :
  quotable c = true ->
  (c =? SPACE) = false
  /\ mem c breaks_chars = false
  /\ (c =? 39) = false
  /\ ((c =? LF) || ((32 <=? c) && (c <=? 126))) = true.
Proof.
  intro H. apply quotable_inv in H as [[Hlo Hhi] Hq].
  unfold mem, breaks_chars, SPACE, LF. cbn [existsb].
  repeat split;
    repeat match goal with
      | |- context [?a =? ?b] =>
          replace (a =? b) with false by (symmetry; apply N.eqb_neq; lia)
      end; try reflexivity.
  cbn [orb]. apply andb_true_iff. split; apply N.leb_le; lia.
Qed.

Lemma quotable_at (text : str) (index : nat) (ch : char) :
  forallb quotable text = true ->
  char_at text index = Some ch -> quotable ch = true.
Proof.
  intros Hall Hat. rewrite forallb_forall in Hall.
  apply Hall. exact (nth_error_In text index Hat).
Qed.

Lemma analyze_loop_quotable (text : str) :
  forallb quotable text = true ->
  forall fuel index s,
    break_space s = false -> space_break s = false ->
    special_characters s = false ->
    break_space (analyze_loop fuel text index s) = false
    /\ space_break (analyze_loop fuel text index s) = false
    /\ special_characters (analyze_loop fuel text index s) = false.
Proof.
  intros Hall fuel. induction fuel as [|fuel IH]; intros index s H1 H2 H3;
    [now repeat split|].
  cbn [analyze_loop]. destruct (char_at text index) as [ch|] eqn:Hat;
    [|now repeat split].
  destruct (quotable_char ch (quotable_at text index ch Hall Hat))
    as (Hsp & Hbr & _ & Hpr).
  apply IH; cbn [analyze_char break_space space_break special_characters].
  - now rewrite H1, Hsp.
  - now rewrite H2, Hbr, andb_false_r.
  - now rewrite H3, Hpr.
Qed.

Lemma quotable_single_quoted (text : str) :
  forallb quotable text = true ->
  an_allow_single_quoted (analyze_scalar text) = true.
Proof.
  intro Hall. destruct text as [|c rest]; [reflexivity|].
  unfold analyze_scalar. cbv zeta. cbn [an_allow_single_quoted].
  match goal with
  | |- context [analyze_loop ?fuel ?text ?index ?s] =>
      destruct (analyze_loop_quotable text Hall fuel index s
                  eq_refl eq_refl eq_refl) as (-> & -> & ->)
  end.
  reflexivity.
Qed.

Lemma slice_all (text : str) : slice text 0 (List.length text) = text.
Proof.
  unfold slice. rewrite Nat.sub_0_r. cbn [skipn]. apply firstn_all.
Qed.

Lemma write_single_quoted_loop_quotable (text : str) (split : bool)
      (indent : option nat) :
  forallb quotable text = true ->
  forall (n end_ : nat) (c : cursor),
    (end_ + n)%nat = List.length text ->
    write_single_quoted_loop (S n) text split indent 0 end_ false false c
    = if Nat.ltb 0 (List.length text) then write_data text c else ([], c).
Proof.
  intros Hall n. induction n as [|n IH]; intros end_ c Hlen.
  - rewrite Nat.add_0_r in Hlen. subst end_.
    cbn [write_single_quoted_loop]. unfold char_at.
    rewrite (proj2 (nth_error_None text (List.length text)) (Nat.le_refl _)).
    cbn [is_none orb is_char]. rewrite slice_all.
    destruct (Nat.ltb 0 (List.length text)).
    + unfold write_data, wnil. now rewrite !app_nil_r.
    + reflexivity.
  - assert (Hlt : (end_ < List.length text)%nat) by lia.
    destruct (nth_error text end_) as [ch|] eqn:Hat;
      [|apply nth_error_None in Hat; lia].
    destruct (quotable_char ch (quotable_at text end_ ch Hall Hat))
      as (Hsp & Hbr & Hq & _).
    change (write_single_quoted_loop (S (S n)) text split indent 0 end_
              false false c)
      with (let ch := char_at text end_ in
            let '(t1, c1, start1) :=
              if is_none ch || char_in ch space_and_breaks || is_char ch 39
              then
                if Nat.ltb 0 end_ then
                  let (t, c') := write_data (slice text 0 end_) c in
                  (t, c', end_)
                else ([], c, 0%nat)
              else ([], c, 0%nat) in
            let '(t2, c2, start2) :=
              if is_char ch 39 then
                let (t, c') := write_data [39; 39] c1 in (t, c', S end_)
              else ([], c1, start1) in
            let spaces1 :=
              match ch with Some x => x =? SPACE | None => false end in
            let breaks1 :=
              match ch with Some x => mem x breaks_chars | None => false end in
            let (t3, c3) :=
              write_single_quoted_loop (S n) text split indent start2
                                       (S end_) spaces1 breaks1 c2 in
            (t1 ++ t2 ++ t3, c3)).
    unfold char_at. rewrite Hat. cbv zeta.
    cbn [is_none char_in is_char orb space_and_breaks mem existsb].
    fold (mem ch breaks_chars). rewrite Hsp, Hbr, Hq. cbn [orb].
    rewrite (IH (S end_) c) by lia.
    now destruct (Nat.ltb 0 (List.length text)); destruct (write_data text c).
Qed.

Lemma write_quoted_quotable (p : str) (indent : option nat) (c : cursor) :
  forallb quotable p = true ->
  fst (write_quoted p indent c)
  = (if whitespace c then [39] else [SPACE; 39]) ++ p ++ [39].
Proof.
  intro Hall. unfold write_quoted.
  rewrite (quotable_single_quoted p Hall).
  unfold write_single_quoted, wseq.
  destruct (write_indicator [39] true false false c) as [t1 c1] eqn:H1.
  rewrite (write_single_quoted_loop_quotable p true indent Hall
             (List.length p) 0 c1 eq_refl).
  assert (Ht1 : t1 = if whitespace c then [39] else [SPACE; 39]).
  { unfold write_indicator in H1. injection H1 as <- _.
    now destruct (whitespace c). }
  subst t1.
  destruct p as [|x p']; cbn [List.length Nat.ltb Nat.leb].
  - unfold write_indicator. cbn [fst negb orb app].
    now rewrite orb_true_r.
  - unfold write_data, write_indicator. cbn [fst negb orb].
    rewrite orb_true_r. reflexivity.
Qed.

Lemma document_text_parts (patterns : list str) :
  document_text patterns
  = header_text ++ sequence_text patterns ++ footer_text.
Proof.
  unfold document_text, header_text, footer_text.
  now rewrite <- !app_assoc.
Qed.

Lemma pattern_text_quotable (p : str) :
  forallb quotable p = true -> pattern_text p = u " '" ++ p ++ u "'".
Proof.
  intro Hall. unfold pattern_text.
  now rewrite (write_quoted_quotable p (Some 6%nat) item_cursor Hall).
Qed.

Lemma sequence_text_quotable (lines : list str) :
  Forall (fun line => forallb quotable (strip line) = true) lines ->
  flat_map (fun p => LF :: u "    -" ++ pattern_text p)
           (map pattern_of_line lines)
  = flat_map (fun line => LF :: u "    - '*." ++ strip line ++ u "'") lines.
Proof.
  induction 1 as [|line rest Hline _ IH]; [reflexivity|].
  cbn [map flat_map]. rewrite IH. f_equal.
  rewrite pattern_text_quotable; [reflexivity|].
  unfold pattern_of_line. exact Hline.
Qed.

(** X14. When the tokens of the input are made of printable ASCII
    characters other than the space and the apostrophe, each pattern is
    written as it is between single quotes, one item a line, whatever its
    length; the text of the document is then the fixed text before the
    sequence, a line [    - '*.token'] for every token (or [ []] when
    there is none), and the fixed text after it. *)
Theorem X14_quotable_tokens_are_written_as_they_are :
  forall (env : environment) (text : str),
    env_import_yaml env = Return tt ->
    input_text env text ->
    Forall (fun line => forallb quotable (strip line) = true)
           (filter retained (lines_of_text text)) ->
    run env
    = print_to (env_stdout env)
        (header_text
         ++ match filter retained (lines_of_text text) with
            | [] => u " []"
            | _ :: _ =>
                flat_map (fun line =>
                            LF :: u "    - '*." ++ strip line ++ u "'")
                         (filter retained (lines_of_text text))
            end
         ++ footer_text).
Proof.
  intros env text Himport Htext Hall.
  rewrite (run_with_input env text Himport Htext). f_equal.
  rewrite document_text_parts, patterns_of_filter_map. f_equal. f_equal.
  destruct (filter retained (lines_of_text text)) as [|line rest] eqn:Hlines;
    [reflexivity|].
  unfold sequence_text. cbn [map].
  change (pattern_of_line line :: map pattern_of_line rest)
    with (map pattern_of_line (line :: rest)).
  now apply sequence_text_quotable.
Qed.

Lemma X14_witness :
  env_import_yaml
    (environment_with utf8_decode (latin1_encode scenario_text) Accepted)
  = Return tt
  /\ filter retained (lines_of_text scenario_text)
     = [u "exe" ++ [LF]; u "bat" ++ [LF]; u "tar.gz" ++ [LF]]
  /\ run_stdout
       (run (environment_with utf8_decode (latin1_encode scenario_text)
                              Accepted))
     = header_text ++ [LF]
       ++ u "    - '*.exe'" ++ [LF]
       ++ u "    - '*.bat'" ++ [LF]
       ++ u "    - '*.tar.gz'"
       ++ footer_text ++ [LF].
Proof.
  split; [reflexivity|]. split; [reflexivity|].
  assert (Htext : input_text
                    (environment_with utf8_decode
                       (latin1_encode scenario_text) Accepted)
                    scenario_text).
  { exists {| raw_read := Return (latin1_encode scenario_text) |},
      (latin1_encode scenario_text).
    repeat split; reflexivity. }
  assert (Hall : Forall (fun line => forallb quotable (strip line) = true)
                        (filter retained (lines_of_text scenario_text))).
  { repeat (apply Forall_cons; [reflexivity|]). apply Forall_nil. }
  rewrite (X14_quotable_tokens_are_written_as_they_are
             (environment_with utf8_decode (latin1_encode scenario_text)
                               Accepted)
             scenario_text eq_refl Htext Hall).
  reflexivity.
Defined.

(** X15. Two runs whose inputs have the same lines once trimmed, in
    environments where [yaml] is imported and standard output behaves
    alike, have the same outcome, whatever the encodings and the line
    ends of the two files. *)
Theorem X15_runs_on_inputs_with_the_same_trimmed_lines :
  forall (env1 env2 : environment) (text1 text2 : str),
    env_import_yaml env1 = Return tt ->
    env_import_yaml env2 = Return tt ->
    input_text env1 text1 ->
    input_text env2 text2 ->
    map strip (lines_of_text text1) = map strip (lines_of_text text2) ->
    (forall text, env_stdout env1 text = env_stdout env2 text) ->
    run env1 = run env2.
Proof.
  intros env1 env2 text1 text2 Himport1 Himport2 Htext1 Htext2 Hstrip Hout.
  rewrite (run_with_input env1 text1 Himport1 Htext1),
    (run_with_input env2 text2 Himport2 Htext2).
  rewrite (patterns_of_trimmed _ _ Hstrip).
  unfold print_to. now rewrite Hout.
Qed.

Lemma X15_witness :
  map strip (lines_of_text scenario_text_crlf)
  = map strip (lines_of_text scenario_text)
  /\ run (environment_with latin1_decode (latin1_encode scenario_text_crlf)
                           Accepted)
     = run (environment_with utf8_decode (latin1_encode scenario_text)
                             Accepted).
Proof.
  split; [reflexivity|].
  apply (X15_runs_on_inputs_with_the_same_trimmed_lines
           (environment_with latin1_decode
              (latin1_encode scenario_text_crlf) Accepted)
           (environment_with utf8_decode (latin1_encode scenario_text)
                             Accepted)
           scenario_text_crlf scenario_text eq_refl eq_refl).
  - exists {| raw_read := Return (latin1_encode scenario_text_crlf) |},
      (latin1_encode scenario_text_crlf).
    repeat split; reflexivity.
  - exists {| raw_read := Return (latin1_encode scenario_text) |},
      (latin1_encode scenario_text).
    repeat split; reflexivity.
  - reflexivity.
  - intro text. reflexivity.
Defined.
